(** * AxonCore: the [Collection] utility (src/Utility/Collection.js)

    [Collection] is a JavaScript class extending the built-in [Map] with
    an optional [baseObject] class and a handful of helpers.  The
    development below embeds the class method by method:

    - [JS]: the fragment of JavaScript values the class looks at
      (truthiness, [instanceof], SameValueZero key equality, spreading,
      property access on [null], array indexing);
    - [JsMap]: the inherited [Map] as an insertion-ordered association
      list ([get], [has], [set], [delete], [size], [values]);
    - [Collection]: the class itself, each method written in a small
      state-and-exception monad over the receiver [this];
    - [SignaleLogger]: the init messages of the logger
      (src/Loggers/SignaleLogger.js), which read the size of the
      collections a module or command holds.

    Callbacks handed to [find], [filter], [map], [some] and [every] are
    the tests and transforms of the JSDoc ("a function that takes an
    object and returns ..."): functions of the item alone.  Module
    [Live] runs the same five loops with callbacks that may also write
    to the collection they are iterating, on the Map as its iterator
    sees it. *)

From Stdlib Require Import List ZArith String Bool Lia SpecFloat.
From Stdlib Require Import DecimalString DecimalNat.
Import ListNotations.

Open Scope nat_scope.

(* ------------------------------------------------------------------ *)
(** ** JavaScript values *)

Module JS.

(** A class (constructor function).  [class_id] stands for the identity
    of its [prototype] object, [class_name] for its [name] property. *)
Record Class : Type := mkClass {
  class_id : nat;
  class_name : string
}.

(** An object: its reference identity and its prototype chain, nearest
    prototype first, each prototype named by the class that owns it. *)
Record object : Type := mkObject {
  obj_ref : nat;
  obj_protos : list nat
}.

(** Values.  Numbers are the integers and [NaN]; both zeros of the
    source language are falsy and equal as map keys, so one [VNum 0]
    stands for them. *)
Inductive value : Type :=
| VUndefined
| VNull
| VBool (b : bool)
| VNum (n : Z)
| VNaN
| VStr (s : string)
| VObj (o : object).

Definition object_eq_dec (a b : object) : {a = b} + {a <> b}.
Proof.
  decide equality.
  - apply (list_eq_dec Nat.eq_dec).
  - apply Nat.eq_dec.
Defined.

Definition value_eq_dec (a b : value) : {a = b} + {a <> b}.
Proof.
  decide equality.
  - apply Bool.bool_dec.
  - apply Z.eq_dec.
  - apply string_dec.
  - apply object_eq_dec.
Defined.

(** ToBoolean: [undefined], [null], [false], [0], [NaN] and the empty
    string are falsy, everything else is truthy. *)
Definition truthy (v : value) : bool :=
  match v with
  | VUndefined => false
  | VNull => false
  | VBool b => b
  | VNum n => negb (Z.eqb n 0)
  | VNaN => false
  | VStr s => negb (String.eqb s EmptyString)
  | VObj _ => true
  end.

(** [v instanceof cls]: only objects have a prototype chain, and the
    test succeeds when [cls.prototype] occurs in it. *)
Definition instanceof (v : value) (cls : Class) : bool :=
  match v with
  | VObj o => existsb (Nat.eqb (class_id cls)) (obj_protos o)
  | _ => false
  end.

(** SameValueZero, the key comparison of [Map]. *)
Definition sameValueZero (a b : value) : bool :=
  if value_eq_dec a b then true else false.

Inductive error : Type :=
| TypeError.

(** Outcome of evaluating an expression or a method body. *)
Inductive completion (A : Type) : Type :=
| Normal (a : A)
| Throw (e : error).

Arguments Normal {A} a.
Arguments Throw {A} e.

(** What the operand of a spread [[...x]] can be in this class. *)
Inductive iterand : Type :=
| ValuesIterator (items : list value)  (* [this.values()], a Map iterator *)
| MethodRef (name : string).           (* [this.values], the method itself *)

(** [[...x]]: an iterator is drained into an array; a function object
    has no [Symbol.iterator] and the spread throws. *)
Definition spread (x : iterand) : completion (list value) :=
  match x with
  | ValuesIterator items => Normal items
  | MethodRef _ => Throw TypeError
  end.

(** [b.name] where [b] is [null] or a class. *)
Definition get_name (b : option Class) : completion string :=
  match b with
  | None => Throw TypeError
  | Some cls => Normal (class_name cls)
  end.

(** [arr[i]] for an integer [i]: [undefined] outside the array. *)
Definition array_index (arr : list value) (i : Z) : value :=
  if (i <? 0)%Z then VUndefined else nth (Z.to_nat i) arr VUndefined.

(** Arithmetic on numbers is arithmetic on binary64 doubles: 53 bits of
    precision, exponents below 1024, round to nearest even. *)
Definition prec : Z := 53.
Definition emax : Z := 1024.

(** A size as a number. *)
Definition number_of_nat (n : nat) : spec_float :=
  binary_normalize prec emax (Z.of_nat n) 0 false.

(** [x * y] *)
Definition number_mul (x y : spec_float) : spec_float :=
  SFmul prec emax x y.

(** [Math.floor(x)], as the integer it is; [NaN] and the infinities
    stay what they are ([None]). *)
Definition Math_floor (x : spec_float) : option Z :=
  match x with
  | S754_zero _ => Some 0%Z
  | S754_finite s m e =>
      let n := if s then Z.neg m else Z.pos m in
      Some (if (0 <=? e)%Z then n * 2 ^ e else n / 2 ^ (- e))%Z
  | S754_infinity _ => None
  | S754_nan => None
  end.

(** [arr[x]] where [x] is the result of [Math.floor]: an element for an
    integer inside the array, [undefined] for anything else. *)
Definition array_index_floor (arr : list value) (x : option Z) : value :=
  match x with
  | Some i => array_index arr i
  | None => VUndefined
  end.

End JS.

Import JS.

(* ------------------------------------------------------------------ *)
(** ** The inherited Map *)

Module JsMap.

(** Entries in insertion order. *)
Definition t : Type := list (value * value).

Definition empty : t := [].

Fixpoint get (key : value) (m : t) : value :=
  match m with
  | [] => VUndefined
  | (k, v) :: rest => if sameValueZero k key then v else get key rest
  end.

Fixpoint has (key : value) (m : t) : bool :=
  match m with
  | [] => false
  | (k, _) :: rest => if sameValueZero k key then true else has key rest
  end.

(** [set] overwrites in place when the key is there and appends
    otherwise. *)
Fixpoint set (key val : value) (m : t) : t :=
  match m with
  | [] => [(key, val)]
  | (k, v) :: rest =>
      if sameValueZero k key then (k, val) :: rest
      else (k, v) :: set key val rest
  end.

Fixpoint delete (key : value) (m : t) : t :=
  match m with
  | [] => []
  | (k, v) :: rest =>
      if sameValueZero k key then rest else (k, v) :: delete key rest
  end.

Definition size (m : t) : nat := List.length m.

Definition keys (m : t) : list value := List.map fst m.

Definition values (m : t) : list value := List.map snd m.

(** A Map holds each key once. *)
Definition wf (m : t) : Prop := NoDup (keys m).

End JsMap.

(* ------------------------------------------------------------------ *)
(** ** The Collection class *)

Module Collection.

(** The receiver: the [baseObject] field ([None] is [null]) and the
    entries of the Map it extends. *)
Record t : Type := mk {
  baseObject : option Class;
  entries : JsMap.t
}.

(** Inherited accessors, read off the receiver. *)
Definition get (key : value) (c : t) : value := JsMap.get key (entries c).
Definition has (key : value) (c : t) : bool := JsMap.has key (entries c).
Definition size (c : t) : nat := JsMap.size (entries c).
Definition values (c : t) : list value := JsMap.values (entries c).

(** Method bodies run against [this] and end normally or by throwing. *)
Definition M (A : Type) : Type := t -> completion A * t.

Definition ret {A : Type} (a : A) : M A := fun this => (Normal a, this).

Definition bind {A B : Type} (m : M A) (k : A -> M B) : M B :=
  fun this =>
    match m this with
    | (Normal a, this') => k a this'
    | (Throw e, this') => (Throw e, this')
    end.

Definition lift {A : Type} (r : completion A) : M A := fun this => (r, this).

Declare Scope js_scope.
Delimit Scope js_scope with js.
Notation "x <- m ;; k" := (bind m (fun x => k))
  (at level 61, m at next level, right associativity) : js_scope.
Notation "m ;;; k" := (bind m (fun _ => k))
  (at level 61, right associativity) : js_scope.
Local Open Scope js_scope.

(** The receiver's own members, as the methods use them. *)
Definition this_baseObject : M (option Class) :=
  fun this => (Normal (baseObject this), this).

Definition this_get (key : value) : M value :=
  fun this => (Normal (JsMap.get key (entries this)), this).

Definition this_set (key val : value) : M unit :=
  fun this =>
    (Normal tt, mk (baseObject this) (JsMap.set key val (entries this))).

Definition this_delete (key : value) : M bool :=
  fun this =>
    (Normal (JsMap.has key (entries this)),
     mk (baseObject this) (JsMap.delete key (entries this))).

Definition this_size : M nat :=
  fun this => (Normal (JsMap.size (entries this)), this).

Definition this_values : M (list value) :=
  fun this => (Normal (JsMap.values (entries this)), this).

(** [constructor(baseObject)]: [super()] gives the empty Map, then
    [this.baseObject = baseObject ? baseObject : null].  The argument is
    a class or left out, and a class is truthy. *)
Definition constructor (base : option Class) : t :=
  mk (match base with Some cls => Some cls | None => None end) JsMap.empty.

(** [toArray() { return [...this.values]; }] *)
Definition toArray : M (list value) :=
  arr <- lift (spread (MethodRef "values")) ;;
  ret arr.

(** [add(key, value, replace)] *)
Definition add (key val replace : value) : M value :=
  existing <- this_get key ;;
  if truthy existing && negb (truthy replace) then ret existing
  else
    base <- this_baseObject ;;
    if match base with
       | Some cls => negb (instanceof val cls)
       | None => false
       end
    then ret VNull
    else
      this_set key val ;;;
      ret val.

Fixpoint find_loop (func : value -> value) (items : list value) : value :=
  match items with
  | [] => VUndefined
  | item :: rest => if truthy (func item) then item else find_loop func rest
  end.

(** [find(func)] *)
Definition find (func : value -> value) : M value :=
  items <- this_values ;;
  ret (find_loop func items).

(** The index [Math.floor(rnd * size)]. *)
Definition random_index (rnd : spec_float) (size : nat) : option Z :=
  Math_floor (number_mul rnd (number_of_nat size)).

(** [random()]; [rnd] is the double [Math.random()] hands back. *)
Definition random (rnd : spec_float) : M value :=
  n <- this_size ;;
  if Nat.eqb n 0 then ret VUndefined
  else
    items <- this_values ;;
    n' <- this_size ;;
    ret (array_index_floor items (random_index rnd n')).

Fixpoint filter_loop (func : value -> value) (items arr : list value)
  : list value :=
  match items with
  | [] => arr
  | item :: rest =>
      if truthy (func item) then filter_loop func rest (arr ++ [item])
      else filter_loop func rest arr
  end.

(** [filter(func)] *)
Definition filter (func : value -> value) : M (list value) :=
  items <- this_values ;;
  ret (filter_loop func items []).

Fixpoint map_loop (func : value -> value) (items arr : list value)
  : list value :=
  match items with
  | [] => arr
  | item :: rest => map_loop func rest (arr ++ [func item])
  end.

(** [map(func)] *)
Definition map (func : value -> value) : M (list value) :=
  items <- this_values ;;
  ret (map_loop func items []).

Fixpoint some_loop (func : value -> value) (items : list value) : bool :=
  match items with
  | [] => false
  | item :: rest => if truthy (func item) then true else some_loop func rest
  end.

(** [some(func)] *)
Definition some (func : value -> value) : M bool :=
  items <- this_values ;;
  ret (some_loop func items).

Fixpoint every_loop (func : value -> value) (items : list value) : bool :=
  match items with
  | [] => true
  | item :: rest =>
      if negb (truthy (func item)) then false else every_loop func rest
  end.

(** [every(func)] *)
Definition every (func : value -> value) : M bool :=
  items <- this_values ;;
  ret (every_loop func items).

(** [update(key, value) { return this.add(key, value, true); }] *)
Definition update (key val : value) : M value :=
  add key val (VBool true).

(** [remove(key)] *)
Definition remove (key : value) : M value :=
  item <- this_get key ;;
  if negb (truthy item) then ret VNull
  else
    this_delete key ;;;
    ret item.

(** [toString() { return `[Collection<${this.baseObject.name}>]`; }] *)
Definition toString : M string :=
  base <- this_baseObject ;;
  name <- lift (get_name base) ;;
  ret ("[Collection<" ++ name ++ ">]")%string.

(** The result and the receiver a method call leaves behind. *)
Definition result {A : Type} (r : completion A * t) : completion A := fst r.
Definition after {A : Type} (r : completion A * t) : t := snd r.

(** Collections a client can build: [new Collection(base)] followed by
    any number of [add], [update] and [remove] calls. *)
Inductive reachable : t -> Prop :=
| reach_new (base : option Class) :
    reachable (constructor base)
| reach_add (c : t) (key val replace : value) :
    reachable c -> reachable (after (add key val replace c))
| reach_update (c : t) (key val : value) :
    reachable c -> reachable (after (update key val c))
| reach_remove (c : t) (key : value) :
    reachable c -> reachable (after (remove key c)).

(** Every stored value is an instance of [baseObject], when there is
    one. *)
Definition conforms (c : t) : Prop :=
  forall cls, baseObject c = Some cls ->
  forall v, In v (values c) -> instanceof v cls = true.

(** The contract of [add] as the specification words it: presence of
    the key (not the truthiness of what is stored) guards step 1, and
    [replace] is a boolean. *)
Definition add_contract (key val : value) (replace : bool) (c : t)
  : completion value * t :=
  if has key c && negb replace then (Normal (get key c), c)
  else
    match baseObject c with
    | Some cls =>
        if instanceof val cls
        then (Normal val, mk (Some cls) (JsMap.set key val (entries c)))
        else (Normal VNull, c)
    | None => (Normal val, mk None (JsMap.set key val (entries c)))
    end.

(** "Defined exactly as add(key, value, replace = true)". *)
Definition update_contract (key val : value) (c : t)
  : completion value * t :=
  add_contract key val true c.

End Collection.

(* ------------------------------------------------------------------ *)
(** ** The loops on the live Map

    [find], [filter], [map], [some] and [every] iterate
    [this.values()], an iterator over the Map itself, and call [func]
    once per item.  A [func] that writes to the collection changes what
    the iterator is walking.  Here the callback says what it writes, and
    the loops run on the Map as its iterator sees it: a list of slots
    where a deleted entry leaves an emptied slot behind and a new key
    takes a new slot at the end. *)

Module Live.

(** A write to the collection from inside a callback. *)
Inductive write : Type :=
| WSet (key val : value)       (* [c.set(key, val)]; what [add] and [update] do when they store *)
| WDelete (key : value)        (* [c.delete(key)]; what [remove] does when it deletes *)
| WBase (base : option Class). (* [c.baseObject = base] *)

(** A callback: from the item and the collection as it is when the
    callback is called, its result and the writes it makes, in order. *)
Definition callback : Type := value -> Collection.t -> value * list write.

Definition slots : Type := list (option (value * value)).

Record state : Type := mkState {
  base : option Class;
  data : slots
}.

(** The entries a reader of the Map sees. *)
Fixpoint compact (s : slots) : JsMap.t :=
  match s with
  | [] => []
  | Some e :: rest => e :: compact rest
  | None :: rest => compact rest
  end.

Definition view (st : state) : Collection.t :=
  Collection.mk (base st) (compact (data st)).

Definition start (c : Collection.t) : state :=
  mkState (Collection.baseObject c) (List.map Some (Collection.entries c)).

Fixpoint set (key val : value) (s : slots) : slots :=
  match s with
  | [] => [Some (key, val)]
  | Some (k, v) :: rest =>
      if sameValueZero k key then Some (k, val) :: rest
      else Some (k, v) :: set key val rest
  | None :: rest => None :: set key val rest
  end.

Fixpoint delete (key : value) (s : slots) : slots :=
  match s with
  | [] => []
  | Some (k, v) :: rest =>
      if sameValueZero k key then None :: rest
      else Some (k, v) :: delete key rest
  | None :: rest => None :: delete key rest
  end.

Definition apply_write (st : state) (w : write) : state :=
  match w with
  | WSet key val => mkState (base st) (set key val (data st))
  | WDelete key => mkState (base st) (delete key (data st))
  | WBase b => mkState b (data st)
  end.

Definition apply_writes (ws : list write) (st : state) : state :=
  fold_left apply_write ws st.

(** The iterator's [next()]: the value in the first filled slot at or
    after [index], and the index after it; [None] when done. *)
Fixpoint next_from (s : slots) (index : nat) : option (value * nat) :=
  match s with
  | [] => None
  | Some (_, v) :: _ => Some (v, S index)
  | None :: rest => next_from rest (S index)
  end.

Definition next (st : state) (index : nat) : option (value * nat) :=
  next_from (skipn index (data st)) index.

(** [for (const item of this.values()) body]: [body] gets the item, the
    loop's local [acc] and the collection, and either goes on with a
    new [acc] ([inl]) or returns from the method ([inr]).  A callback
    that keeps adding keys keeps the loop going for ever: [fuel] bounds
    the number of [next()] calls, and [None] means it ran out. *)
Fixpoint for_of {A R : Type} (fuel : nat)
  (body : value -> A -> Collection.t -> (A + R) * list write)
  (acc : A) (st : state) (index : nat) : option ((A + R) * state) :=
  match fuel with
  | 0 => None
  | S fuel' =>
      match next st index with
      | None => Some (inl acc, st)
      | Some (item, index') =>
          let out := body item acc (view st) in
          let st' := apply_writes (snd out) st in
          match fst out with
          | inl acc' => for_of fuel' body acc' st' index'
          | inr r => Some (inr r, st')
          end
      end
  end.

(** The method's result once the loop is over: what it returned from
    inside the loop, or what follows the loop. *)
Definition finish {A R : Type} (after_loop : A -> R)
  (r : option ((A + R) * state)) : option (completion R * Collection.t) :=
  match r with
  | None => None
  | Some (inl acc, st) => Some (Normal (after_loop acc), view st)
  | Some (inr x, st) => Some (Normal x, view st)
  end.

(** [find(func)] *)
Definition find (fuel : nat) (func : callback) (c : Collection.t)
  : option (completion value * Collection.t) :=
  finish (fun _ : unit => VUndefined)
    (for_of fuel
       (fun item _ this =>
          (if truthy (fst (func item this)) then inr item else inl tt,
           snd (func item this)))
       tt (start c) 0).

(** [filter(func)] *)
Definition filter (fuel : nat) (func : callback) (c : Collection.t)
  : option (completion (list value) * Collection.t) :=
  finish (fun arr : list value => arr)
    (for_of fuel
       (fun item arr this =>
          (inl (if truthy (fst (func item this)) then arr ++ [item] else arr),
           snd (func item this)))
       [] (start c) 0).

(** [map(func)] *)
Definition map (fuel : nat) (func : callback) (c : Collection.t)
  : option (completion (list value) * Collection.t) :=
  finish (fun arr : list value => arr)
    (for_of fuel
       (fun item arr this =>
          (inl (arr ++ [fst (func item this)]), snd (func item this)))
       [] (start c) 0).

(** [some(func)] *)
Definition some (fuel : nat) (func : callback) (c : Collection.t)
  : option (completion bool * Collection.t) :=
  finish (fun _ : unit => false)
    (for_of fuel
       (fun item _ this =>
          (if truthy (fst (func item this)) then inr true else inl tt,
           snd (func item this)))
       tt (start c) 0).

(** [every(func)] *)
Definition every (fuel : nat) (func : callback) (c : Collection.t)
  : option (completion bool * Collection.t) :=
  finish (fun _ : unit => true)
    (for_of fuel
       (fun item _ this =>
          (if negb (truthy (fst (func item this))) then inr false else inl tt,
           snd (func item this)))
       tt (start c) 0).

(** A callback that never writes to the collection. *)
Definition nonwriting (func : callback) : Prop :=
  forall item c, snd (func item c) = [].

(** The loop without the Map: [step] over the items in order. *)
Fixpoint fold_items {A R : Type} (step : value -> A -> A + R) (acc : A)
  (items : list value) : A + R :=
  match items with
  | [] => inl acc
  | item :: rest =>
      match step item acc with
      | inl acc' => fold_items step acc' rest
      | inr r => inr r
      end
  end.

End Live.

(* ------------------------------------------------------------------ *)
(** ** The logger (src/Loggers/SignaleLogger.js)

    [SignaleLogger] extends the Signale logger of the library of that
    name.  What the library prints is outside this repository; a call
    of one of its logger methods is recorded as an entry (the method
    called and the message passed) appended to the output so far. *)

Module SignaleLogger.

(** The logger methods the class calls on itself: the library's own
    [fatal] and [note], and the three declared under [options.types]
    that the init methods use. *)
Inductive logger : Type :=
| fatal
| note
| moduleS
| commandS
| subcmdS.

(** The [label] each custom type is declared with in [options.types]. *)
Definition type_label (l : logger) : option string :=
  match l with
  | moduleS => Some "module"%string
  | commandS => Some "command"%string
  | subcmdS => Some "subcmd"%string
  | _ => None
  end.

Record entry : Type := mkEntry {
  entry_logger : logger;
  entry_message : string
}.

(** A module as [initModule] reads it: [label], and [commands], a
    collection when it is there ([None]: [undefined]). *)
Record AxonModule : Type := mkModule {
  module_label : string;
  commands : option Collection.t
}.

(** A command or subcommand as [initCommand] and [initSubCmd] read it:
    [label], [hasSubcmd], and [subCommands], a collection when it is
    there. *)
Record Command : Type := mkCommand {
  label : string;
  hasSubcmd : value;
  subCommands : option Collection.t
}.

(** Logger methods run against the output and end normally or by
    throwing. *)
Definition L (A : Type) : Type := list entry -> completion A * list entry.

Definition ret {A : Type} (a : A) : L A := fun out => (Normal a, out).

Definition bind {A B : Type} (m : L A) (k : A -> L B) : L B :=
  fun out =>
    match m out with
    | (Normal a, out') => k a out'
    | (Throw e, out') => (Throw e, out')
    end.

Definition lift {A : Type} (r : completion A) : L A := fun out => (r, out).

Definition call (l : logger) (message : string) : L unit :=
  fun out => (Normal tt, out ++ [mkEntry l message]).

(** [x.size] where [x] is [undefined] or a collection. *)
Definition get_size (x : option Collection.t) : completion nat :=
  match x with
  | None => Throw TypeError
  | Some c => Normal (Collection.size c)
  end.

(** A size inside a template literal: its decimal digits. *)
Definition number_to_string (n : nat) : string :=
  NilZero.string_of_uint (Nat.to_uint n).

(** [emerg(input) { this.fatal(input); }] *)
Definition emerg (input : string) : L unit := call fatal input.

(** [notice(input) { this.note(input); }] *)
Definition notice (input : string) : L unit := call note input.

(** [initModule(module)] *)
Definition initModule (module : AxonModule) : L unit :=
  bind (lift (get_size (commands module))) (fun n =>
  call moduleS
    ("[" ++ module_label module ++ "] Initialised! Commands loaded -"
     ++ number_to_string n ++ "-")%string).

(** The message [initCommand] and [initSubCmd] each build in [mess]. *)
Definition initCommand_mess (command : Command) : L string :=
  if truthy (hasSubcmd command)
  then
    bind (lift (get_size (subCommands command))) (fun n =>
    ret (label command ++ " Initialised! Subcommands loaded -"
         ++ number_to_string n ++ "-")%string)
  else ret (label command ++ " Initialised!")%string.

(** [initCommand(command)] *)
Definition initCommand (command : Command) : L unit :=
  bind (initCommand_mess command) (fun mess => call commandS mess).

Definition initSubCmd_mess (sub : Command) : L string :=
  if truthy (hasSubcmd sub)
  then
    bind (lift (get_size (subCommands sub))) (fun n =>
    ret (label sub ++ " Initialised! Subcommands loaded -"
         ++ number_to_string n ++ "-")%string)
  else ret (label sub ++ " Initialised!")%string.

(** [initSubCmd(sub)] *)
Definition initSubCmd (sub : Command) : L unit :=
  bind (initSubCmd_mess sub) (fun mess => call subcmdS mess).

End SignaleLogger.

(* ------------------------------------------------------------------ *)
(** ** Sample data *)

Definition Wrapper : Class := mkClass 1 "Wrapper".

Definition wrap (n : nat) : value := VObj (mkObject n [1]).

(** [new Collection()] after [add("a", 0)]. *)
Definition zero_store : Collection.t :=
  Collection.after
    (Collection.add (VStr "a") (VNum 0) VUndefined
       (Collection.constructor None)).

(** [new Collection(Wrapper)] after [add("a", wrap(1))]. *)
Definition wrapper_store : Collection.t :=
  Collection.after
    (Collection.add (VStr "a") (wrap 1) VUndefined
       (Collection.constructor (Some Wrapper))).

(** The second guard of [add], negated: there is no [baseObject], or
    the value is an instance of it. *)
Definition accepts (c : Collection.t) (val : value) : bool :=
  match Collection.baseObject c with
  | Some cls => instanceof val cls
  | None => true
  end.

(** [add] reaches [this.set]: the existing-value guard is off and the
    value passes the instance check. *)
Definition add_stores (c : Collection.t) (key val replace : value) : bool :=
  negb (truthy (Collection.get key c) && negb (truthy replace))
  && accepts c val.

(** [v => !func(v)] *)
Definition negate (func : value -> value) : value -> value :=
  fun v => VBool (negb (truthy (func v))).

(** Ten entries: the keys 0 to 9 holding 10 to 19. *)
Definition ten_store : Collection.t :=
  Collection.mk None
    (List.map (fun i => (VNum (Z.of_nat i), VNum (Z.of_nat (10 + i))))
       (seq 0 10)).

(** The double nearest to 0.7. *)
Definition seven_tenths : spec_float :=
  S754_finite false 6305039478318694%positive (-53).

(** [v => { if (!c.has("c")) c.set("c", 9); return v; }] *)
Definition adds_c : Live.callback :=
  fun item this =>
    (item,
     if Collection.has (VStr "c") this then []
     else [Live.WSet (VStr "c") (VNum 9)]).

(** Two entries, built with [add] from the empty collection. *)
Definition two_store : Collection.t :=
  Collection.after
    (Collection.add (VStr "b") (VNum 2) VUndefined
       (Collection.after
          (Collection.add (VStr "a") (VNum 1) VUndefined
             (Collection.constructor None)))).

(* ------------------------------------------------------------------ *)
(** ** Facts about values and the Map *)

Lemma sameValueZero_true (a b : value) :
  sameValueZero a b = true <-> a = b.
Proof.
  unfold sameValueZero. destruct (value_eq_dec a b); split; congruence.
Qed.

Lemma sameValueZero_false (a b : value) :
  sameValueZero a b = false <-> a <> b.
Proof.
  unfold sameValueZero. destruct (value_eq_dec a b); split; congruence.
Qed.

Lemma sameValueZero_refl (a : value) : sameValueZero a a = true.
Proof. apply sameValueZero_true. reflexivity. Qed.

Lemma instanceof_truthy (v : value) (cls : Class) :
  instanceof v cls = true -> truthy v = true.
Proof. destruct v; simpl; congruence. Qed.

Section MapFacts.

Variable key : value.

Lemma has_keys (m : JsMap.t) :
  JsMap.has key m = true <-> In key (JsMap.keys m).
Proof.
  induction m as [|[k v] rest IH]; simpl.
  - split; [discriminate | tauto].
  - destruct (sameValueZero k key) eqn:E.
    + apply sameValueZero_true in E. tauto.
    + apply sameValueZero_false in E. rewrite IH. tauto.
Qed.

Lemma get_absent (m : JsMap.t) :
  JsMap.has key m = false -> JsMap.get key m = VUndefined.
Proof.
  induction m as [|[k v] rest IH]; simpl; auto.
  destruct (sameValueZero k key); [discriminate | exact IH].
Qed.

Lemma get_truthy_has (m : JsMap.t) :
  truthy (JsMap.get key m) = true -> JsMap.has key m = true.
Proof.
  destruct (JsMap.has key m) eqn:E; auto.
  rewrite (get_absent _ E). discriminate.
Qed.

Lemma get_in_values (m : JsMap.t) :
  JsMap.has key m = true -> In (JsMap.get key m) (JsMap.values m).
Proof.
  induction m as [|[k v] rest IH]; simpl; [discriminate|].
  destruct (sameValueZero k key); auto.
Qed.

Lemma delete_absent (m : JsMap.t) :
  JsMap.has key m = false -> JsMap.delete key m = m.
Proof.
  induction m as [|[k v] rest IH]; simpl; auto.
  destruct (sameValueZero k key); [discriminate|].
  intros H. now rewrite IH.
Qed.

Lemma size_delete (m : JsMap.t) :
  JsMap.has key m = true ->
  S (JsMap.size (JsMap.delete key m)) = JsMap.size m.
Proof.
  unfold JsMap.size.
  induction m as [|[k v] rest IH]; simpl; [discriminate|].
  destruct (sameValueZero k key); simpl; auto.
Qed.

Lemma keys_delete_incl (m : JsMap.t) (k : value) :
  In k (JsMap.keys (JsMap.delete key m)) -> In k (JsMap.keys m).
Proof.
  induction m as [|[k' v] rest IH]; simpl; auto.
  destruct (sameValueZero k' key); simpl; tauto.
Qed.

Lemma values_delete_incl (m : JsMap.t) (v : value) :
  In v (JsMap.values (JsMap.delete key m)) -> In v (JsMap.values m).
Proof.
  induction m as [|[k' v'] rest IH]; simpl; auto.
  destruct (sameValueZero k' key); simpl; tauto.
Qed.

Lemma wf_delete (m : JsMap.t) :
  JsMap.wf m -> JsMap.wf (JsMap.delete key m).
Proof.
  unfold JsMap.wf.
  induction m as [|[k v] rest IH]; simpl; auto.
  intros H. inversion H as [|? ? Hk Hrest]; subst.
  destruct (sameValueZero k key); simpl; auto.
  constructor; auto.
  intros Hin. apply Hk. eapply keys_delete_incl; eauto.
Qed.

Lemma has_delete (m : JsMap.t) :
  JsMap.wf m -> JsMap.has key (JsMap.delete key m) = false.
Proof.
  unfold JsMap.wf.
  induction m as [|[k v] rest IH]; simpl; auto.
  intros H. inversion H as [|? ? Hk Hrest]; subst.
  destruct (sameValueZero k key) eqn:E; simpl.
  - apply sameValueZero_true in E. subst k.
    destruct (JsMap.has key rest) eqn:Hh; auto.
    apply has_keys in Hh. contradiction.
  - rewrite E. auto.
Qed.

Lemma keys_set (m : JsMap.t) (val k : value) :
  In k (JsMap.keys (JsMap.set key val m)) <-> k = key \/ In k (JsMap.keys m).
Proof.
  induction m as [|[k' v] rest IH]; simpl.
  - intuition.
  - destruct (sameValueZero k' key) eqn:E; simpl.
    + apply sameValueZero_true in E. subst. intuition.
    + rewrite IH. intuition.
Qed.

Lemma values_set_incl (m : JsMap.t) (val v : value) :
  In v (JsMap.values (JsMap.set key val m)) ->
  v = val \/ In v (JsMap.values m).
Proof.
  induction m as [|[k' v'] rest IH]; simpl.
  - intuition.
  - destruct (sameValueZero k' key); simpl; intuition.
Qed.

Lemma wf_set (m : JsMap.t) (val : value) :
  JsMap.wf m -> JsMap.wf (JsMap.set key val m).
Proof.
  unfold JsMap.wf.
  induction m as [|[k v] rest IH]; simpl.
  - intros _. constructor; [simpl; tauto | constructor].
  - intros H. inversion H as [|? ? Hk Hrest]; subst.
    destruct (sameValueZero k key) eqn:E; simpl.
    + constructor; auto.
    + constructor; auto.
      intros Hin. apply keys_set in Hin. destruct Hin as [->|Hin].
      * rewrite sameValueZero_refl in E. discriminate.
      * contradiction.
Qed.

End MapFacts.

(* ------------------------------------------------------------------ *)
(** ** toArray *)

(** C1 (as the code behaves).  [toArray] spreads the method
    [this.values] instead of the iterator [this.values()]: on every
    collection the call throws a TypeError and returns no array; the
    receiver is left as it was. *)
Theorem toArray_throws (c : Collection.t) :
  Collection.toArray c = (Throw TypeError, c).
Proof. reflexivity. Qed.

(** The array the find/filter/map family iterates over, for
    comparison: spreading the iterator would have given the values. *)
Lemma spread_values_iterator (c : Collection.t) :
  spread (ValuesIterator (Collection.values c)) = Normal (Collection.values c)
  /\ List.length (Collection.values c) = Collection.size c.
Proof.
  split; [reflexivity|].
  unfold Collection.values, Collection.size, JsMap.values, JsMap.size.
  apply length_map.
Qed.

(* ------------------------------------------------------------------ *)
(** ** add *)

Lemma add_existing (c : Collection.t) (key val replace : value) :
  truthy (Collection.get key c) = true ->
  truthy replace = false ->
  Collection.add key val replace c = (Normal (Collection.get key c), c).
Proof.
  intros Hex Hrep.
  unfold Collection.add, Collection.bind, Collection.this_get, Collection.ret.
  unfold Collection.get in Hex. rewrite Hex, Hrep. reflexivity.
Qed.

Lemma add_rejected (c : Collection.t) (cls : Class) (key val replace : value) :
  Collection.baseObject c = Some cls ->
  instanceof val cls = false ->
  truthy (Collection.get key c) && negb (truthy replace) = false ->
  Collection.add key val replace c = (Normal VNull, c).
Proof.
  intros Hb Hi Hg.
  unfold Collection.add, Collection.bind, Collection.this_get,
    Collection.this_baseObject, Collection.ret.
  unfold Collection.get in Hg. rewrite Hg, Hb, Hi. reflexivity.
Qed.

Lemma add_stored (c : Collection.t) (key val replace : value) :
  truthy (Collection.get key c) && negb (truthy replace) = false ->
  match Collection.baseObject c with
  | Some cls => instanceof val cls = true
  | None => True
  end ->
  Collection.add key val replace c =
  (Normal val,
   Collection.mk (Collection.baseObject c)
     (JsMap.set key val (Collection.entries c))).
Proof.
  intros Hg Hb.
  unfold Collection.add, Collection.bind, Collection.this_get,
    Collection.this_baseObject, Collection.this_set, Collection.ret.
  unfold Collection.get in Hg. rewrite Hg.
  destruct c as [[cls|] m]; simpl in *; [rewrite Hb|]; reflexivity.
Qed.

(** C2 (as stated, refuted).  In the collection built by
    [new Collection()] and [add("a", 0)], the key "a" is present with
    value 0, yet [add("a", 5, false)] returns 5 and stores it: the guard
    tests the stored value for truthiness, not the key for presence. *)
Lemma add_no_replace_falsy_overwrites :
  Collection.has (VStr "a") zero_store = true /\
  Collection.get (VStr "a") zero_store = VNum 0 /\
  Collection.result
    (Collection.add (VStr "a") (VNum 5) (VBool false) zero_store)
  = Normal (VNum 5) /\
  Collection.get (VStr "a")
    (Collection.after
       (Collection.add (VStr "a") (VNum 5) (VBool false) zero_store))
  = VNum 5 /\
  ~ (forall (c : Collection.t) (K V1 V2 : value),
       Collection.has K c = true -> Collection.get K c = V1 ->
       Collection.result (Collection.add K V2 (VBool false) c) = Normal V1).
Proof.
  repeat split; try reflexivity.
  intros H.
  specialize (H zero_store (VStr "a") (VNum 0) (VNum 5) eq_refl eq_refl).
  discriminate H.
Qed.

(** C2 (amended).  For every collection and every key K present with a
    truthy stored value V1 (any object, in particular),
    [add(K, V2, false)] returns V1 and leaves the collection as it was,
    so [get(K)] is still V1 and [size] is unchanged, for every V2. *)
Theorem add_no_replace_keeps_existing
  (c : Collection.t) (K V1 V2 : value) :
  Collection.has K c = true ->
  Collection.get K c = V1 ->
  truthy V1 = true ->
  let r := Collection.add K V2 (VBool false) c in
  Collection.result r = Normal V1 /\
  Collection.after r = c /\
  Collection.get K (Collection.after r) = V1 /\
  Collection.size (Collection.after r) = Collection.size c.
Proof.
  intros _ Hget Ht r. subst r V1.
  rewrite add_existing by auto. simpl. auto.
Qed.

Lemma add_no_replace_keeps_existing_witness :
  Collection.has (VStr "a") wrapper_store = true /\
  truthy (wrap 1) = true /\
  Collection.result
    (Collection.add (VStr "a") (wrap 2) (VBool false) wrapper_store)
  = Normal (wrap 1) /\
  Collection.size
    (Collection.after
       (Collection.add (VStr "a") (wrap 2) (VBool false) wrapper_store))
  = 1.
Proof.
  destruct (@add_no_replace_keeps_existing wrapper_store (VStr "a") (wrap 1)
              (wrap 2) eq_refl eq_refl eq_refl) as (Hr & _ & _ & Hs).
  exact (conj eq_refl (conj eq_refl (conj Hr Hs))).
Defined.

(** C4 (as stated, refuted).  With [baseObject = Wrapper] and "a"
    already holding [wrap(1)], [add("a", 7, false)] offers a value that
    is no Wrapper and gets the existing [wrap(1)] back, not [null]: the
    existing-key guard runs before the instance check. *)
Lemma add_invalid_returns_existing :
  Collection.baseObject wrapper_store = Some Wrapper /\
  instanceof (VNum 7) Wrapper = false /\
  Collection.result
    (Collection.add (VStr "a") (VNum 7) (VBool false) wrapper_store)
  = Normal (wrap 1) /\
  Collection.result
    (Collection.add (VStr "a") (VNum 7) (VBool false) wrapper_store)
  <> Normal VNull.
Proof.
  repeat split; try reflexivity. discriminate.
Qed.

(** C4 (amended).  For every collection whose baseObject is set, every
    key K and every value V that is not an instance of baseObject,
    [add(K, V, replace)] raises no error and leaves the whole collection
    unchanged (so [has(K)] and [get(K)] are unaffected), for every
    [replace]; it returns [null], except when K already holds a truthy
    value and [replace] is falsy, where it returns that existing
    value. *)
Theorem add_invalid_rejected
  (c : Collection.t) (cls : Class) (K V replace : value) :
  Collection.baseObject c = Some cls ->
  instanceof V cls = false ->
  let r := Collection.add K V replace c in
  Collection.after r = c /\
  Collection.has K (Collection.after r) = Collection.has K c /\
  Collection.get K (Collection.after r) = Collection.get K c /\
  Collection.result r =
    Normal (if truthy (Collection.get K c) && negb (truthy replace)
            then Collection.get K c else VNull).
Proof.
  intros Hb Hi r. subst r.
  destruct (truthy (Collection.get K c) && negb (truthy replace)) eqn:G.
  - apply andb_prop in G. destruct G as [G1 G2].
    apply negb_true_iff in G2.
    rewrite add_existing by assumption. simpl. auto.
  - rewrite (add_rejected c cls K V replace Hb Hi G). simpl. auto.
Qed.

Lemma add_invalid_rejected_witness :
  Collection.baseObject wrapper_store = Some Wrapper /\
  instanceof (VNum 7) Wrapper = false /\
  Collection.result
    (Collection.add (VStr "b") (VNum 7) (VBool true) wrapper_store)
  = Normal VNull /\
  Collection.after
    (Collection.add (VStr "b") (VNum 7) (VBool true) wrapper_store)
  = wrapper_store.
Proof.
  destruct (@add_invalid_rejected wrapper_store Wrapper (VStr "b") (VNum 7)
              (VBool true) eq_refl eq_refl) as (Ha & _ & _ & Hr).
  exact (conj eq_refl (conj eq_refl (conj Hr Ha))).
Defined.

(* ------------------------------------------------------------------ *)
(** ** remove *)

Lemma remove_nothing (c : Collection.t) (key : value) :
  truthy (Collection.get key c) = false ->
  Collection.remove key c = (Normal VNull, c).
Proof.
  intros H.
  unfold Collection.remove, Collection.bind, Collection.this_get,
    Collection.ret.
  unfold Collection.get in H. rewrite H. reflexivity.
Qed.

Lemma remove_deletes (c : Collection.t) (key : value) :
  truthy (Collection.get key c) = true ->
  Collection.remove key c =
  (Normal (Collection.get key c),
   Collection.mk (Collection.baseObject c)
     (JsMap.delete key (Collection.entries c))).
Proof.
  intros H.
  unfold Collection.remove, Collection.bind, Collection.this_get,
    Collection.this_delete, Collection.ret.
  unfold Collection.get in H. rewrite H. reflexivity.
Qed.

(** C3 (as stated, refuted).  In the collection built by
    [new Collection()] and [add("a", 0)], the key "a" is present, yet
    [remove("a")] returns [null] instead of the stored 0, and "a" is
    still there afterwards with the size unchanged: [remove] tests the
    stored value for truthiness. *)
Lemma remove_falsy_entry_stays :
  Collection.has (VStr "a") zero_store = true /\
  Collection.get (VStr "a") zero_store = VNum 0 /\
  Collection.result (Collection.remove (VStr "a") zero_store)
  = Normal VNull /\
  Collection.result (Collection.remove (VStr "a") zero_store)
  <> Normal (Collection.get (VStr "a") zero_store) /\
  Collection.has (VStr "a")
    (Collection.after (Collection.remove (VStr "a") zero_store)) = true /\
  Collection.size
    (Collection.after (Collection.remove (VStr "a") zero_store))
  = Collection.size zero_store.
Proof.
  repeat split; try reflexivity. discriminate.
Qed.

(** C3 (amended).  For every collection (a Map, so each key is held
    once: [JsMap.wf]), [remove(K)] on an absent key
    returns [null] and leaves the store (and size) unchanged; on a key
    present with a truthy stored value it deletes the entry, returns the
    previously stored value, decreases size by exactly one, and
    afterwards [has(K)] is false. *)
Theorem remove_spec (c : Collection.t) (K : value) :
  JsMap.wf (Collection.entries c) ->
  let r := Collection.remove K c in
  (Collection.has K c = false ->
     Collection.result r = Normal VNull /\ Collection.after r = c) /\
  (Collection.has K c = true -> truthy (Collection.get K c) = true ->
     Collection.result r = Normal (Collection.get K c) /\
     Collection.entries (Collection.after r)
       = JsMap.delete K (Collection.entries c) /\
     S (Collection.size (Collection.after r)) = Collection.size c /\
     Collection.has K (Collection.after r) = false).
Proof.
  intros Hwf r. subst r. split.
  - intros Habs. rewrite remove_nothing.
    + simpl. auto.
    + unfold Collection.get. unfold Collection.has in Habs.
      rewrite (get_absent _ _ Habs). reflexivity.
  - intros Hhas Ht. rewrite remove_deletes by assumption. simpl.
    repeat split.
    + apply size_delete. exact Hhas.
    + apply has_delete. exact Hwf.
Qed.

Lemma remove_spec_witness :
  JsMap.wf (Collection.entries wrapper_store) /\
  Collection.has (VStr "a") wrapper_store = true /\
  truthy (Collection.get (VStr "a") wrapper_store) = true /\
  Collection.result (Collection.remove (VStr "a") wrapper_store)
  = Normal (wrap 1) /\
  Collection.size
    (Collection.after (Collection.remove (VStr "a") wrapper_store)) = 0 /\
  Collection.has (VStr "b") wrapper_store = false /\
  Collection.after (Collection.remove (VStr "b") wrapper_store)
  = wrapper_store.
Proof.
  assert (Hwf : JsMap.wf (Collection.entries wrapper_store)).
  { unfold JsMap.wf. simpl. constructor; [simpl; tauto | constructor]. }
  destruct (@remove_spec wrapper_store (VStr "a") Hwf) as [_ Hp].
  destruct (Hp eq_refl eq_refl) as (Hr & _ & Hs & _).
  destruct (@remove_spec wrapper_store (VStr "b") Hwf) as [Ha _].
  destruct (Ha eq_refl) as (_ & Hafter).
  exact (conj Hwf (conj eq_refl (conj eq_refl
          (conj Hr (conj (eq_add_S _ _ Hs) (conj eq_refl Hafter)))))).
Defined.

(* ------------------------------------------------------------------ *)
(** ** The instance invariant *)

Lemma add_cases (c : Collection.t) (key val replace : value) :
  Collection.after (Collection.add key val replace c) = c \/
  (Collection.after (Collection.add key val replace c)
   = Collection.mk (Collection.baseObject c)
       (JsMap.set key val (Collection.entries c)) /\
   forall cls, Collection.baseObject c = Some cls ->
               instanceof val cls = true).
Proof.
  destruct (truthy (Collection.get key c) && negb (truthy replace)) eqn:G.
  - left. apply andb_prop in G. destruct G as [G1 G2].
    apply negb_true_iff in G2. now rewrite add_existing.
  - destruct (Collection.baseObject c) as [cls|] eqn:Hb.
    + destruct (instanceof val cls) eqn:Hi.
      * right. rewrite add_stored; [| assumption | now rewrite Hb ].
        rewrite Hb. split; [reflexivity|].
        intros cls' E. now inversion E; subst.
      * left. now rewrite (add_rejected c cls key val replace Hb Hi G).
    + right. rewrite add_stored; [| assumption | now rewrite Hb ].
      rewrite Hb. split; [reflexivity | discriminate].
Qed.

Lemma remove_cases (c : Collection.t) (key : value) :
  Collection.after (Collection.remove key c) = c \/
  Collection.after (Collection.remove key c)
  = Collection.mk (Collection.baseObject c)
      (JsMap.delete key (Collection.entries c)).
Proof.
  destruct (truthy (Collection.get key c)) eqn:G.
  - right. now rewrite remove_deletes.
  - left. now rewrite remove_nothing.
Qed.

Lemma conforms_add (c : Collection.t) (key val replace : value) :
  Collection.conforms c ->
  Collection.conforms (Collection.after (Collection.add key val replace c)).
Proof.
  intros Hc.
  destruct (add_cases c key val replace) as [-> | [-> Hinst]]; [exact Hc|].
  intros cls Hb v Hin. simpl in Hb, Hin.
  unfold Collection.values in Hin. simpl in Hin.
  apply values_set_incl in Hin. destruct Hin as [-> | Hin].
  - now apply Hinst.
  - now apply (Hc cls Hb).
Qed.

Lemma conforms_remove (c : Collection.t) (key : value) :
  Collection.conforms c ->
  Collection.conforms (Collection.after (Collection.remove key c)).
Proof.
  intros Hc.
  destruct (remove_cases c key) as [-> | ->]; [exact Hc|].
  intros cls Hb v Hin. simpl in Hb.
  unfold Collection.values in Hin. simpl in Hin.
  apply values_delete_incl in Hin. now apply (Hc cls Hb).
Qed.

(** Reachable collections hold each key once. *)
Lemma reachable_wf (c : Collection.t) :
  Collection.reachable c -> JsMap.wf (Collection.entries c).
Proof.
  induction 1 as [base | c key val replace _ IH | c key val _ IH
                 | c key _ IH].
  - destruct base; constructor.
  - destruct (add_cases c key val replace) as [-> | [-> _]]; auto.
    simpl. now apply wf_set.
  - unfold Collection.update.
    destruct (add_cases c key val (VBool true)) as [-> | [-> _]]; auto.
    simpl. now apply wf_set.
  - destruct (remove_cases c key) as [-> | ->]; auto.
    simpl. now apply wf_delete.
Qed.

(** C5.  In every collection reachable from construction through
    [add], [update] and [remove], if [baseObject] is set then every
    value in the store is an instance of it. *)
Theorem reachable_conforms (c : Collection.t) :
  Collection.reachable c ->
  forall cls, Collection.baseObject c = Some cls ->
  forall v, In v (Collection.values c) -> instanceof v cls = true.
Proof.
  intros Hr. change (Collection.conforms c).
  induction Hr as [base | c key val replace _ IH | c key val _ IH
                  | c key _ IH].
  - intros cls _ v Hin. destruct base; destruct Hin.
  - now apply conforms_add.
  - unfold Collection.update. now apply conforms_add.
  - now apply conforms_remove.
Qed.

Lemma reachable_conforms_witness :
  Collection.reachable wrapper_store /\
  Collection.baseObject wrapper_store = Some Wrapper /\
  In (wrap 1) (Collection.values wrapper_store) /\
  instanceof (wrap 1) Wrapper = true.
Proof.
  assert (Hr : Collection.reachable wrapper_store).
  { unfold wrapper_store. apply Collection.reach_add.
    apply Collection.reach_new. }
  assert (Hin : In (wrap 1) (Collection.values wrapper_store)).
  { left. reflexivity. }
  exact (conj Hr (conj eq_refl (conj Hin
          (@reachable_conforms wrapper_store Hr Wrapper eq_refl
             (wrap 1) Hin)))).
Defined.

(* ------------------------------------------------------------------ *)
(** ** update *)

(** C6.  [update(key, value)] returns what [add(key, value, true)]
    returns and leaves the collection in the state that call leaves it
    in; this is also the specification's contract for add taken at
    replace = true. *)
Theorem update_is_add_replace (c : Collection.t) (key val : value) :
  Collection.update key val c = Collection.add key val (VBool true) c /\
  Collection.update key val c = Collection.update_contract key val c.
Proof.
  split; [reflexivity|].
  unfold Collection.update, Collection.update_contract,
    Collection.add_contract.
  rewrite andb_false_r.
  destruct (Collection.baseObject c) as [cls|] eqn:Hb.
  - destruct (instanceof val cls) eqn:Hi.
    + rewrite add_stored.
      * now rewrite Hb.
      * simpl. apply andb_false_r.
      * now rewrite Hb.
    + apply (add_rejected c cls key val (VBool true) Hb Hi).
      simpl. apply andb_false_r.
  - rewrite add_stored.
    + now rewrite Hb.
    + simpl. apply andb_false_r.
    + now rewrite Hb.
Qed.

(* ------------------------------------------------------------------ *)
(** ** toString *)

(** C7.  [toString] reads [this.baseObject.name] without a guard: when
    [baseObject] is set the call returns "[Collection<" ++ name ++ ">]",
    and when it is [null] the property access throws. *)
Theorem toString_spec (c : Collection.t) :
  (forall cls, Collection.baseObject c = Some cls ->
     Collection.toString c
     = (Normal ("[Collection<" ++ class_name cls ++ ">]")%string, c)) /\
  (Collection.baseObject c = None ->
     Collection.toString c = (Throw TypeError, c)).
Proof.
  unfold Collection.toString, Collection.bind, Collection.this_baseObject,
    Collection.lift, Collection.ret.
  split.
  - intros cls Hb. rewrite Hb. reflexivity.
  - intros Hb. rewrite Hb. reflexivity.
Qed.

Lemma toString_spec_witness :
  Collection.toString wrapper_store
  = (Normal "[Collection<Wrapper>]"%string, wrapper_store) /\
  Collection.toString zero_store = (Throw TypeError, zero_store).
Proof.
  exact (conj (proj1 (toString_spec wrapper_store) Wrapper eq_refl)
              (proj2 (toString_spec zero_store) eq_refl)).
Defined.

(* ------------------------------------------------------------------ *)
(** ** some and every *)

Lemma some_loop_true (func : value -> value) (items : list value) :
  Collection.some_loop func items = true <->
  exists v, In v items /\ truthy (func v) = true.
Proof.
  induction items as [|item rest IH]; simpl.
  - split; [discriminate | intros (v & [] & _)].
  - destruct (truthy (func item)) eqn:E.
    + split; [|reflexivity]. intros _. exists item. auto.
    + rewrite IH. split.
      * intros (v & Hin & Hv). exists v. auto.
      * intros (v & [<- | Hin] & Hv); [congruence|]. exists v. auto.
Qed.

Lemma every_loop_true (func : value -> value) (items : list value) :
  Collection.every_loop func items = true <->
  forall v, In v items -> truthy (func v) = true.
Proof.
  induction items as [|item rest IH]; simpl.
  - split; [intros _ v [] | reflexivity].
  - destruct (truthy (func item)) eqn:E; simpl.
    + rewrite IH. split.
      * intros H v [<- | Hin]; auto.
      * intros H v Hin. apply H. auto.
    + split; [discriminate|]. intros H.
      rewrite (H item) in E by auto. discriminate.
Qed.

(** C8.  [some(f)] returns true exactly when at least one stored value
    satisfies f, and [every(f)] returns true exactly when all stored
    values do; on an empty collection [some(f)] returns false and
    [every(f)] returns true.  A value satisfies f when f's result for it
    is truthy. *)
Theorem some_every_spec (c : Collection.t) (f : value -> value) :
  (exists b, Collection.result (Collection.some f c) = Normal b /\
     (b = true <->
      exists v, In v (Collection.values c) /\ truthy (f v) = true)) /\
  (exists b, Collection.result (Collection.every f c) = Normal b /\
     (b = true <->
      forall v, In v (Collection.values c) -> truthy (f v) = true)) /\
  (Collection.size c = 0 ->
     Collection.result (Collection.some f c) = Normal false /\
     Collection.result (Collection.every f c) = Normal true).
Proof.
  split; [|split].
  - eexists. split; [reflexivity|]. apply some_loop_true.
  - eexists. split; [reflexivity|]. apply every_loop_true.
  - destruct c as [base [|e m]]; [|discriminate].
    intros _. split; reflexivity.
Qed.

Lemma some_every_spec_witness :
  Collection.size (Collection.constructor None) = 0 /\
  Collection.result
    (Collection.some (fun _ => VBool true) (Collection.constructor None))
  = Normal false /\
  Collection.result
    (Collection.every (fun _ => VBool false) (Collection.constructor None))
  = Normal true.
Proof.
  exact (conj eq_refl
          (conj
             (proj1 (proj2 (proj2 (some_every_spec
                (Collection.constructor None) (fun _ => VBool true)))
                eq_refl))
             (proj2 (proj2 (proj2 (some_every_spec
                (Collection.constructor None) (fun _ => VBool false)))
                eq_refl)))).
Defined.

(* ------------------------------------------------------------------ *)
(** ** random *)


Lemma values_length (c : Collection.t) :
  List.length (Collection.values c) = Collection.size c.
Proof.
  unfold Collection.values, Collection.size, JsMap.values, JsMap.size.
  apply length_map.
Qed.


(** The index is computed in doubles: 0.7 * 10 rounds to 7, so the
    eighth of ten values is picked. *)
Example random_seven_tenths :
  Collection.random_index seven_tenths 10 = Some 7%Z /\
  Collection.random seven_tenths ten_store = (Normal (VNum 17), ten_store).
Proof. split; reflexivity. Qed.

(** The largest double below 1 still gives the last index. *)
Example random_just_below_one :
  Collection.random_index
    (S754_finite false 9007199254740991%positive (-53)) 10 = Some 9%Z /\
  Collection.random_index
    (S754_finite false 9007199254740991%positive (-53)) 3 = Some 2%Z /\
  Collection.random_index (S754_zero false) 10 = Some 0%Z.
Proof. repeat split; reflexivity. Qed.



(* ------------------------------------------------------------------ *)
(** ** filter and map *)

Lemma filter_loop_acc (func : value -> value) (items arr : list value) :
  Collection.filter_loop func items arr
  = arr ++ List.filter (fun v => truthy (func v)) items.
Proof.
  revert arr. induction items as [|item rest IH]; intros arr; simpl.
  - now rewrite app_nil_r.
  - destruct (truthy (func item)); rewrite IH; [|reflexivity].
    now rewrite <- app_assoc.
Qed.

Lemma map_loop_acc (func : value -> value) (items arr : list value) :
  Collection.map_loop func items arr = arr ++ List.map func items.
Proof.
  revert arr. induction items as [|item rest IH]; intros arr; simpl.
  - now rewrite app_nil_r.
  - rewrite IH. now rewrite <- app_assoc.
Qed.

Lemma filter_values (c : Collection.t) (func : value -> value) :
  Collection.filter func c
  = (Normal (List.filter (fun v => truthy (func v)) (Collection.values c)), c).
Proof.
  unfold Collection.filter, Collection.bind, Collection.this_values,
    Collection.ret.
  now rewrite filter_loop_acc.
Qed.

Lemma map_values (c : Collection.t) (func : value -> value) :
  Collection.map func c = (Normal (List.map func (Collection.values c)), c).
Proof.
  unfold Collection.map, Collection.bind, Collection.this_values,
    Collection.ret.
  now rewrite map_loop_acc.
Qed.

(* ------------------------------------------------------------------ *)
(** ** What the methods leave alone *)

Lemma add_baseObject (c : Collection.t) (key val replace : value) :
  Collection.baseObject (Collection.after (Collection.add key val replace c))
  = Collection.baseObject c.
Proof.
  destruct (add_cases c key val replace) as [-> | [-> _]]; reflexivity.
Qed.

Lemma remove_baseObject (c : Collection.t) (key : value) :
  Collection.baseObject (Collection.after (Collection.remove key c))
  = Collection.baseObject c.
Proof.
  destruct (remove_cases c key) as [-> | ->]; reflexivity.
Qed.

Lemma random_after (c : Collection.t) (rnd : spec_float) :
  Collection.after (Collection.random rnd c) = c.
Proof.
  unfold Collection.random, Collection.bind, Collection.this_size,
    Collection.this_values, Collection.ret, Collection.after.
  destruct (Nat.eqb (JsMap.size (Collection.entries c)) 0); reflexivity.
Qed.

(** *** The loops on the live Map, when the callback does not write *)

Lemma compact_map_Some (m : JsMap.t) : Live.compact (List.map Some m) = m.
Proof. induction m as [|e m IH]; simpl; congruence. Qed.

Lemma view_start (c : Collection.t) : Live.view (Live.start c) = c.
Proof.
  destruct c as [b m]. unfold Live.view, Live.start. simpl.
  now rewrite compact_map_Some.
Qed.

Lemma skipn_S_tail {A : Type} (i : nat) (l : list A) (x : A) (rest : list A) :
  skipn i l = x :: rest -> skipn (S i) l = rest.
Proof.
  revert l. induction i as [|i IH]; intros l H.
  - simpl in H. subst l. reflexivity.
  - destruct l as [|y l]; [discriminate H|]. simpl in H.
    change (skipn (S (S i)) (y :: l)) with (skipn (S i) l). now apply IH.
Qed.

Lemma for_of_nonwriting {A R : Type}
  (body : value -> A -> Collection.t -> (A + R) * list Live.write)
  (c : Collection.t) :
  (forall item acc this, snd (body item acc this) = []) ->
  forall (rest : JsMap.t) (i : nat) (acc : A) (fuel : nat),
    skipn i (Collection.entries c) = rest ->
    List.length rest < fuel ->
    Live.for_of fuel body acc (Live.start c) i
    = Some (Live.fold_items (fun item a => fst (body item a c)) acc
              (List.map snd rest),
            Live.start c).
Proof.
  intros Hnw rest.
  induction rest as [|[k v] rest IH]; intros i acc fuel Hs Hf;
    (destruct fuel as [|fuel]; [simpl in Hf; lia|]);
    cbn [Live.for_of]; unfold Live.next;
    cbn [Live.start Live.data]; rewrite skipn_map, Hs;
    cbn [List.map Live.next_from Live.fold_items snd].
  - reflexivity.
  - change (Live.mkState (Collection.baseObject c)
              (List.map Some (Collection.entries c)))
      with (Live.start c).
    rewrite view_start, Hnw. cbn [Live.apply_writes fold_left].
    destruct (fst (body v acc c)) as [acc'|r]; [|reflexivity].
    apply IH; [now apply (skipn_S_tail _ _ (k, v)) | simpl in Hf; lia].
Qed.

Lemma for_of_nonwriting_all {A R : Type}
  (body : value -> A -> Collection.t -> (A + R) * list Live.write)
  (c : Collection.t) (acc : A) (fuel : nat) :
  (forall item a this, snd (body item a this) = []) ->
  Collection.size c < fuel ->
  Live.for_of fuel body acc (Live.start c) 0
  = Some (Live.fold_items (fun item a => fst (body item a c)) acc
            (Collection.values c),
          Live.start c).
Proof.
  intros Hnw Hf.
  apply (for_of_nonwriting body c Hnw (Collection.entries c) 0 acc fuel);
    [reflexivity | exact Hf].
Qed.

Lemma fold_items_find (f : value -> value) (items : list value) :
  match Live.fold_items
          (fun item (_ : unit) =>
             if truthy (f item) then inr item else inl tt) tt items
  with
  | inl _ => VUndefined
  | inr item => item
  end = Collection.find_loop f items.
Proof.
  induction items as [|item rest IH]; simpl; auto.
  destruct (truthy (f item)); auto.
Qed.

Lemma fold_items_filter (f : value -> value) (items arr : list value) :
  Live.fold_items
    (fun item a => @inl _ (list value)
                     (if truthy (f item) then a ++ [item] else a)) arr items
  = inl (Collection.filter_loop f items arr).
Proof.
  revert arr. induction items as [|item rest IH]; intros arr; simpl; auto.
  rewrite IH. now destruct (truthy (f item)).
Qed.

Lemma fold_items_map (f : value -> value) (items arr : list value) :
  Live.fold_items
    (fun item a => @inl _ (list value) (a ++ [f item])) arr items
  = inl (Collection.map_loop f items arr).
Proof.
  revert arr. induction items as [|item rest IH]; intros arr; simpl; auto.
Qed.

Lemma fold_items_some (f : value -> value) (items : list value) :
  match Live.fold_items
          (fun item (_ : unit) =>
             if truthy (f item) then inr true else inl tt) tt items
  with
  | inl _ => false
  | inr b => b
  end = Collection.some_loop f items.
Proof.
  induction items as [|item rest IH]; simpl; auto.
  destruct (truthy (f item)); auto.
Qed.

Lemma fold_items_every (f : value -> value) (items : list value) :
  match Live.fold_items
          (fun item (_ : unit) =>
             if negb (truthy (f item)) then inr false else inl tt) tt items
  with
  | inl _ => true
  | inr b => b
  end = Collection.every_loop f items.
Proof.
  induction items as [|item rest IH]; simpl; auto.
  destruct (truthy (f item)); auto.
Qed.

(** With a callback that does not write, and fuel for one [next()]
    call more than there are entries, each loop on the live Map ends
    and is the method of [Collection] for the callback's result as a
    function of the item. *)
Lemma live_nonwriting (c : Collection.t) (func : Live.callback)
  (fuel : nat) :
  Live.nonwriting func ->
  Collection.size c < fuel ->
  let f := fun item => fst (func item c) in
  Live.find fuel func c = Some (Collection.find f c) /\
  Live.filter fuel func c = Some (Collection.filter f c) /\
  Live.map fuel func c = Some (Collection.map f c) /\
  Live.some fuel func c = Some (Collection.some f c) /\
  Live.every fuel func c = Some (Collection.every f c).
Proof.
  intros Hnw Hf f.
  assert (Hvalues : forall A (k : list value -> Collection.M A),
            Collection.bind Collection.this_values k c
            = k (Collection.values c) c) by reflexivity.
  split; [|split; [|split; [|split]]].
  - unfold Live.find.
    rewrite for_of_nonwriting_all;
      [| intros; cbn [snd]; apply Hnw | exact Hf].
    cbn [fst]. unfold Live.finish. rewrite view_start.
    unfold Collection.find. rewrite Hvalues. unfold Collection.ret.
    rewrite <- (fold_items_find f (Collection.values c)). unfold f.
    destruct (Live.fold_items _ tt (Collection.values c)); reflexivity.
  - unfold Live.filter.
    rewrite for_of_nonwriting_all;
      [| intros; cbn [snd]; apply Hnw | exact Hf].
    cbn [fst]. unfold Live.finish. rewrite view_start.
    unfold Collection.filter. rewrite Hvalues. unfold Collection.ret.
    now rewrite (fold_items_filter f).
  - unfold Live.map.
    rewrite for_of_nonwriting_all;
      [| intros; cbn [snd]; apply Hnw | exact Hf].
    cbn [fst]. unfold Live.finish. rewrite view_start.
    unfold Collection.map. rewrite Hvalues. unfold Collection.ret.
    now rewrite (fold_items_map f).
  - unfold Live.some.
    rewrite for_of_nonwriting_all;
      [| intros; cbn [snd]; apply Hnw | exact Hf].
    cbn [fst]. unfold Live.finish. rewrite view_start.
    unfold Collection.some. rewrite Hvalues. unfold Collection.ret.
    rewrite <- (fold_items_some f (Collection.values c)). unfold f.
    destruct (Live.fold_items _ tt (Collection.values c)); reflexivity.
  - unfold Live.every.
    rewrite for_of_nonwriting_all;
      [| intros; cbn [snd]; apply Hnw | exact Hf].
    cbn [fst]. unfold Live.finish. rewrite view_start.
    unfold Collection.every. rewrite Hvalues. unfold Collection.ret.
    rewrite <- (fold_items_every f (Collection.values c)). unfold f.
    destruct (Live.fold_items _ tt (Collection.values c)); reflexivity.
Qed.

(** C10 (as stated, refuted).  On the collection holding "a" and "b",
    [map] with the callback
    [v => { if (!c.has("c")) c.set("c", 9); return v; }] returns
    [[1, 2, 9]] and leaves three entries in the store: a helper does
    not leave the store unchanged for every transform argument. *)
Lemma map_writing_callback_changes_store :
  Live.map 4 adds_c two_store
  = Some (Normal [VNum 1; VNum 2; VNum 9],
          Collection.mk None
            [(VStr "a", VNum 1); (VStr "b", VNum 2); (VStr "c", VNum 9)]) /\
  Collection.size two_store = 2 /\
  ~ (forall (fuel : nat) (func : Live.callback) (c : Collection.t)
            (r : completion (list value)) (c' : Collection.t),
       Live.map fuel func c = Some (r, c') ->
       Collection.entries c' = Collection.entries c).
Proof.
  split; [reflexivity|]. split; [reflexivity|].
  intros H.
  specialize (H 4 adds_c two_store _ _ eq_refl).
  discriminate H.
Qed.

(** C10 (amended).  [baseObject] is the constructor's argument, and
    [add], [update], [remove], [toArray], [toString] and [random] leave
    it unchanged; [toArray], [toString] and [random] leave the whole
    collection as it was.  The helpers [find], [filter], [map], [some]
    and [every] return and leave the whole collection, store and
    [baseObject], as it was for every predicate or transform that does
    not itself write to the collection. *)
Theorem methods_frame_nonwriting :
  (forall base, Collection.baseObject (Collection.constructor base) = base) /\
  (forall c key val replace,
     Collection.baseObject
       (Collection.after (Collection.add key val replace c))
     = Collection.baseObject c) /\
  (forall c key val,
     Collection.baseObject (Collection.after (Collection.update key val c))
     = Collection.baseObject c) /\
  (forall c key,
     Collection.baseObject (Collection.after (Collection.remove key c))
     = Collection.baseObject c) /\
  (forall c, Collection.after (Collection.toArray c) = c) /\
  (forall c, Collection.after (Collection.toString c) = c) /\
  (forall c rnd, Collection.after (Collection.random rnd c) = c) /\
  (forall c func fuel,
     Live.nonwriting func ->
     Collection.size c < fuel ->
     (exists r, Live.find fuel func c = Some (Normal r, c)) /\
     (exists r, Live.filter fuel func c = Some (Normal r, c)) /\
     (exists r, Live.map fuel func c = Some (Normal r, c)) /\
     (exists r, Live.some fuel func c = Some (Normal r, c)) /\
     (exists r, Live.every fuel func c = Some (Normal r, c))).
Proof.
  split; [intros base; destruct base; reflexivity|].
  split; [intros; apply add_baseObject|].
  split; [intros; apply add_baseObject|].
  split; [intros; apply remove_baseObject|].
  split; [reflexivity|].
  split; [intros [[cls|] m]; reflexivity|].
  split; [intros; apply random_after|].
  intros c func fuel Hnw Hf.
  destruct (live_nonwriting c func fuel Hnw Hf)
    as (Hfind & Hfilter & Hmap & Hsome & Hevery).
  rewrite Hfind, Hfilter, Hmap, Hsome, Hevery.
  repeat split; eexists; reflexivity.
Qed.

Lemma methods_frame_nonwriting_witness :
  Live.nonwriting (fun item _ => (item, [])) /\
  Collection.size two_store < 3 /\
  (exists r,
     Live.filter 3 (fun item _ => (item, [])) two_store
     = Some (Normal r, two_store)).
Proof.
  assert (Hnw : Live.nonwriting (fun item _ => (item, [])))
    by (intros item c; reflexivity).
  assert (Hf : Collection.size two_store < 3) by (cbv; lia).
  pose proof (proj2 (proj2 (proj2 (proj2 (proj2 (proj2 (proj2
                methods_frame_nonwriting))))))
                two_store (fun item _ => (item, [])) 3 Hnw Hf) as H.
  exact (conj Hnw (conj Hf (proj1 (proj2 H)))).
Defined.

(* ------------------------------------------------------------------ *)
(** ** The specification's worked scenario *)

Example wrapper_scenario :
  let c0 := Collection.constructor (Some Wrapper) in
  let r1 := Collection.add (VStr "a") (wrap 1) VUndefined c0 in
  let r2 := Collection.add (VStr "a") (wrap 2) VUndefined
              (Collection.after r1) in
  let r3 := Collection.update (VStr "a") (wrap 2) (Collection.after r2) in
  let r4 := Collection.remove (VStr "a") (Collection.after r3) in
  let r5 := Collection.remove (VStr "a") (Collection.after r4) in
  Collection.result r1 = Normal (wrap 1) /\
  Collection.size (Collection.after r1) = 1 /\
  Collection.result r2 = Normal (wrap 1) /\
  Collection.result r3 = Normal (wrap 2) /\
  Collection.get (VStr "a") (Collection.after r3) = wrap 2 /\
  Collection.result r4 = Normal (wrap 2) /\
  Collection.size (Collection.after r4) = 0 /\
  Collection.result r5 = Normal VNull.
Proof. repeat split; reflexivity. Qed.

(* ------------------------------------------------------------------ *)
(** ** More about set and delete *)

Section SetDelete.

Variables key val : value.

Lemma set_absent (m : JsMap.t) :
  JsMap.has key m = false -> JsMap.set key val m = m ++ [(key, val)].
Proof.
  induction m as [|[k v] rest IH]; simpl; auto.
  destruct (sameValueZero k key); [discriminate|].
  intros H. now rewrite IH.
Qed.

Lemma get_set_same (m : JsMap.t) : JsMap.get key (JsMap.set key val m) = val.
Proof.
  induction m as [|[k v] rest IH]; simpl.
  - now rewrite sameValueZero_refl.
  - destruct (sameValueZero k key) eqn:E; simpl; now rewrite E.
Qed.

Lemma has_set_same (m : JsMap.t) : JsMap.has key (JsMap.set key val m) = true.
Proof.
  induction m as [|[k v] rest IH]; simpl.
  - now rewrite sameValueZero_refl.
  - destruct (sameValueZero k key) eqn:E; simpl; now rewrite E.
Qed.

Lemma get_set_other (m : JsMap.t) (key' : value) :
  key' <> key -> JsMap.get key' (JsMap.set key val m) = JsMap.get key' m.
Proof.
  intros Hne. induction m as [|[k v] rest IH]; simpl.
  - destruct (sameValueZero key key') eqn:E; auto.
    apply sameValueZero_true in E. congruence.
  - destruct (sameValueZero k key) eqn:E; simpl.
    + apply sameValueZero_true in E. subst k.
      destruct (sameValueZero key key') eqn:E'; auto.
      apply sameValueZero_true in E'. congruence.
    + now rewrite IH.
Qed.

Lemma has_set_other (m : JsMap.t) (key' : value) :
  key' <> key -> JsMap.has key' (JsMap.set key val m) = JsMap.has key' m.
Proof.
  intros Hne. induction m as [|[k v] rest IH]; simpl.
  - destruct (sameValueZero key key') eqn:E; auto.
    apply sameValueZero_true in E. congruence.
  - destruct (sameValueZero k key) eqn:E; simpl.
    + reflexivity.
    + now rewrite IH.
Qed.

Lemma keys_set_present (m : JsMap.t) :
  JsMap.has key m = true -> JsMap.keys (JsMap.set key val m) = JsMap.keys m.
Proof.
  induction m as [|[k v] rest IH]; simpl; [discriminate|].
  destruct (sameValueZero k key); simpl; auto.
  intros H. now rewrite IH.
Qed.

Lemma set_set_same (m : JsMap.t) :
  JsMap.set key val (JsMap.set key val m) = JsMap.set key val m.
Proof.
  induction m as [|[k v] rest IH]; simpl.
  - now rewrite sameValueZero_refl.
  - destruct (sameValueZero k key) eqn:E; simpl; rewrite E; auto.
    now rewrite IH.
Qed.

Lemma delete_set_absent (m : JsMap.t) :
  JsMap.has key m = false -> JsMap.delete key (JsMap.set key val m) = m.
Proof.
  induction m as [|[k v] rest IH]; simpl.
  - now rewrite sameValueZero_refl.
  - destruct (sameValueZero k key) eqn:E; [discriminate|].
    intros H. simpl. rewrite E. now rewrite IH.
Qed.

Lemma get_delete_other (m : JsMap.t) (key' : value) :
  key' <> key -> JsMap.get key' (JsMap.delete key m) = JsMap.get key' m.
Proof.
  intros Hne. induction m as [|[k v] rest IH]; simpl; auto.
  destruct (sameValueZero k key) eqn:E; simpl.
  - apply sameValueZero_true in E. subst k.
    destruct (sameValueZero key key') eqn:E'; auto.
    apply sameValueZero_true in E'. congruence.
  - now rewrite IH.
Qed.

Lemma has_delete_other (m : JsMap.t) (key' : value) :
  key' <> key -> JsMap.has key' (JsMap.delete key m) = JsMap.has key' m.
Proof.
  intros Hne. induction m as [|[k v] rest IH]; simpl; auto.
  destruct (sameValueZero k key) eqn:E; simpl.
  - apply sameValueZero_true in E. subst k.
    destruct (sameValueZero key key') eqn:E'; auto.
    apply sameValueZero_true in E'. congruence.
  - now rewrite IH.
Qed.

Lemma size_set (m : JsMap.t) :
  JsMap.size (JsMap.set key val m)
  = if JsMap.has key m then JsMap.size m else S (JsMap.size m).
Proof.
  unfold JsMap.size.
  induction m as [|[k v] rest IH]; simpl; auto.
  destruct (sameValueZero k key); simpl; auto.
  rewrite IH. now destruct (JsMap.has key rest).
Qed.

End SetDelete.

Lemma add_stores_true (c : Collection.t) (key val replace : value) :
  add_stores c key val replace = true ->
  Collection.add key val replace c =
  (Normal val,
   Collection.mk (Collection.baseObject c)
     (JsMap.set key val (Collection.entries c))).
Proof.
  unfold add_stores, accepts. intros H.
  apply andb_prop in H. destruct H as [H1 H2].
  apply negb_true_iff in H1. apply add_stored; [exact H1|].
  destruct (Collection.baseObject c); auto.
Qed.

Lemma add_stores_false (c : Collection.t) (key val replace : value) :
  add_stores c key val replace = false ->
  Collection.after (Collection.add key val replace c) = c /\
  exists v, Collection.result (Collection.add key val replace c) = Normal v /\
            (v = Collection.get key c /\ truthy v = true \/ v = VNull).
Proof.
  unfold add_stores, accepts. intros H.
  destruct (truthy (Collection.get key c) && negb (truthy replace)) eqn:G.
  - apply andb_prop in G. destruct G as [G1 G2].
    apply negb_true_iff in G2. rewrite add_existing by assumption.
    split; [reflexivity|]. eexists. split; [reflexivity|]. left. auto.
  - simpl in H. destruct (Collection.baseObject c) as [cls|] eqn:Hb;
      [|discriminate].
    rewrite (add_rejected c cls key val replace Hb H G).
    split; [reflexivity|]. eexists. split; [reflexivity|]. right. auto.
Qed.

Lemma reachable_conforms_all (c : Collection.t) :
  Collection.reachable c -> Collection.conforms c.
Proof.
  induction 1 as [base | c key val replace _ IH | c key val _ IH
                 | c key _ IH].
  - intros cls _ v Hin. destruct base; destruct Hin.
  - now apply conforms_add.
  - unfold Collection.update. now apply conforms_add.
  - now apply conforms_remove.
Qed.

Lemma add_stores_fresh (c : Collection.t) (key val replace : value) :
  Collection.has key c = false -> accepts c val = true ->
  add_stores c key val replace = true.
Proof.
  intros Habs Hacc. unfold add_stores, Collection.get.
  unfold Collection.has in Habs.
  rewrite (get_absent _ _ Habs), Hacc. reflexivity.
Qed.

Lemma wrapper_store_wf : JsMap.wf (Collection.entries wrapper_store).
Proof. constructor; [simpl; tauto | constructor]. Qed.

Lemma two_store_wf : JsMap.wf (Collection.entries two_store).
Proof.
  constructor.
  - simpl. intros [H|[]]. discriminate H.
  - constructor; [simpl; tauto | constructor].
Qed.

(* ------------------------------------------------------------------ *)
(** ** Inserting and replacing *)

(** X1.  [add] of an absent key with a value the collection accepts
    returns the value and appends the entry at the end of the
    iteration order: size grows by one, [get] gives the value back, and
    [replace] makes no difference, so [update] does the same. *)
Theorem add_fresh_key (c : Collection.t) (K V replace : value) :
  Collection.has K c = false ->
  accepts c V = true ->
  let r := Collection.add K V replace c in
  Collection.result r = Normal V /\
  Collection.entries (Collection.after r) = Collection.entries c ++ [(K, V)] /\
  Collection.values (Collection.after r) = Collection.values c ++ [V] /\
  Collection.size (Collection.after r) = S (Collection.size c) /\
  Collection.get K (Collection.after r) = V /\
  Collection.has K (Collection.after r) = true /\
  Collection.update K V c = r.
Proof.
  intros Habs Hacc r. subst r.
  rewrite (add_stores_true _ _ _ _ (add_stores_fresh c K V replace Habs Hacc)).
  unfold Collection.update.
  rewrite (add_stores_true _ _ _ _
             (add_stores_fresh c K V (VBool true) Habs Hacc)).
  unfold Collection.result, Collection.after, Collection.values,
    Collection.size, Collection.get, Collection.has. simpl.
  unfold Collection.has in Habs.
  rewrite get_set_same, has_set_same, size_set, Habs.
  rewrite (set_absent _ _ _ Habs).
  unfold JsMap.values. rewrite map_app. simpl. repeat split.
Qed.

Lemma add_fresh_key_witness :
  Collection.has (VStr "b") wrapper_store = false /\
  accepts wrapper_store (wrap 2) = true /\
  Collection.values
    (Collection.after
       (Collection.add (VStr "b") (wrap 2) VUndefined wrapper_store))
  = [wrap 1; wrap 2].
Proof.
  pose proof (add_fresh_key wrapper_store (VStr "b") (wrap 2) VUndefined
                eq_refl eq_refl) as H.
  exact (conj eq_refl (conj eq_refl (proj1 (proj2 (proj2 H))))).
Defined.

(** X2.  [update] of a present key with a value the collection accepts
    returns the value and overwrites in place: [get] gives the new
    value, and the keys, their order and the size stay as they were. *)
Theorem update_existing_key (c : Collection.t) (K V : value) :
  Collection.has K c = true ->
  accepts c V = true ->
  let r := Collection.update K V c in
  Collection.result r = Normal V /\
  Collection.get K (Collection.after r) = V /\
  JsMap.keys (Collection.entries (Collection.after r))
  = JsMap.keys (Collection.entries c) /\
  Collection.size (Collection.after r) = Collection.size c.
Proof.
  intros Hhas Hacc r. subst r. unfold Collection.update.
  assert (Hs : add_stores c K V (VBool true) = true).
  { unfold add_stores. simpl. rewrite andb_false_r. exact Hacc. }
  rewrite (add_stores_true _ _ _ _ Hs).
  unfold Collection.result, Collection.after, Collection.size,
    Collection.get. simpl.
  unfold Collection.has in Hhas.
  rewrite get_set_same, size_set, Hhas, (keys_set_present _ _ _ Hhas).
  repeat split.
Qed.

Lemma update_existing_key_witness :
  Collection.has (VStr "a") two_store = true /\
  accepts two_store (VNum 0) = true /\
  Collection.get (VStr "a")
    (Collection.after (Collection.update (VStr "a") (VNum 0) two_store))
  = VNum 0 /\
  JsMap.keys
    (Collection.entries
       (Collection.after (Collection.update (VStr "a") (VNum 0) two_store)))
  = [VStr "a"; VStr "b"].
Proof.
  pose proof (update_existing_key two_store (VStr "a") (VNum 0)
                eq_refl eq_refl) as H.
  exact (conj eq_refl (conj eq_refl
          (conj (proj1 (proj2 H)) (proj1 (proj2 (proj2 H)))))).
Defined.

(** X3.  [add] and [update] on key K leave every other key alone:
    for K' different from K, [has(K')] and [get(K')] are what they were,
    whatever the value and [replace]. *)
Theorem add_other_keys (c : Collection.t) (K K' V replace : value) :
  K' <> K ->
  Collection.has K' (Collection.after (Collection.add K V replace c))
  = Collection.has K' c /\
  Collection.get K' (Collection.after (Collection.add K V replace c))
  = Collection.get K' c /\
  Collection.has K' (Collection.after (Collection.update K V c))
  = Collection.has K' c /\
  Collection.get K' (Collection.after (Collection.update K V c))
  = Collection.get K' c.
Proof.
  intros Hne.
  assert (Hgen : forall r,
    Collection.has K' (Collection.after (Collection.add K V r c))
    = Collection.has K' c /\
    Collection.get K' (Collection.after (Collection.add K V r c))
    = Collection.get K' c).
  { intros r. destruct (add_cases c K V r) as [-> | [-> _]]; [auto|].
    unfold Collection.has, Collection.get. simpl.
    now rewrite has_set_other, get_set_other. }
  destruct (Hgen replace) as [H1 H2].
  destruct (Hgen (VBool true)) as [H3 H4].
  unfold Collection.update. auto.
Qed.

Lemma add_other_keys_witness :
  VStr "a" <> VStr "b" /\
  Collection.get (VStr "a")
    (Collection.after (Collection.update (VStr "b") (VNum 9) two_store))
  = VNum 1.
Proof.
  assert (Hne : VStr "a" <> VStr "b") by discriminate.
  pose proof (add_other_keys two_store (VStr "b") (VStr "a") (VNum 9)
                VUndefined Hne) as H.
  exact (conj Hne (proj2 (proj2 (proj2 H)))).
Defined.

(** X4.  [add] never throws, and a result other than the value passed
    in means nothing was stored: the collection is exactly as before.
    That result is then [null] or the truthy value already under the
    key. *)
Theorem add_result_tells (c : Collection.t) (K V replace : value) :
  exists v,
    Collection.result (Collection.add K V replace c) = Normal v /\
    (v <> V ->
       Collection.after (Collection.add K V replace c) = c /\
       (v = VNull \/ v = Collection.get K c /\ truthy v = true)).
Proof.
  destruct (add_stores c K V replace) eqn:Hs.
  - rewrite (add_stores_true _ _ _ _ Hs). exists V.
    split; [reflexivity|]. intros Hne. now elim Hne.
  - destruct (add_stores_false _ _ _ _ Hs) as (Hafter & v & Hr & Hv).
    exists v. split; [exact Hr|]. intros _. split; [exact Hafter|].
    tauto.
Qed.

Lemma add_result_tells_witness :
  exists v,
    Collection.result
      (Collection.add (VStr "b") (VNum 7) VUndefined wrapper_store)
    = Normal v /\
    v = VNull /\
    Collection.after
      (Collection.add (VStr "b") (VNum 7) VUndefined wrapper_store)
    = wrapper_store.
Proof.
  destruct (add_result_tells wrapper_store (VStr "b") (VNum 7) VUndefined)
    as (v & Hr & Himp).
  exists v. split; [exact Hr|].
  assert (Hv : v = VNull) by (simpl in Hr; congruence).
  split; [exact Hv|].
  apply Himp. rewrite Hv. discriminate.
Defined.

(** X5.  [add] is idempotent: repeating a call with the same arguments
    on the collection the first call left gives the first call's result
    again and changes nothing more. *)
Theorem add_idempotent (c : Collection.t) (K V replace : value) :
  Collection.add K V replace
    (Collection.after (Collection.add K V replace c))
  = Collection.add K V replace c.
Proof.
  destruct (add_stores c K V replace) eqn:Hs.
  - rewrite (add_stores_true _ _ _ _ Hs). unfold Collection.after. simpl.
    set (c' := Collection.mk (Collection.baseObject c)
                 (JsMap.set K V (Collection.entries c))).
    assert (Hacc : accepts c' V = true).
    { unfold add_stores in Hs. apply andb_prop in Hs. apply Hs. }
    assert (Hget : Collection.get K c' = V).
    { unfold Collection.get, c'. simpl. apply get_set_same. }
    destruct (add_stores c' K V replace) eqn:Hs'.
    + rewrite (add_stores_true _ _ _ _ Hs'). unfold c'. simpl.
      now rewrite set_set_same.
    + unfold add_stores in Hs'. rewrite Hacc, andb_true_r in Hs'.
      apply negb_false_iff in Hs'. apply andb_prop in Hs'.
      destruct Hs' as [Ht Hr]. apply negb_true_iff in Hr.
      rewrite add_existing by assumption. now rewrite Hget.
  - destruct (add_stores_false _ _ _ _ Hs) as (Hafter & _).
    now rewrite Hafter.
Qed.

(* ------------------------------------------------------------------ *)
(** ** Removing *)

Lemma delete_split (key : value) (m : JsMap.t) :
  JsMap.has key m = true ->
  exists before after,
    m = before ++ (key, JsMap.get key m) :: after /\
    JsMap.has key before = false /\
    JsMap.delete key m = before ++ after.
Proof.
  induction m as [|[k v] rest IH]; simpl; [discriminate|].
  destruct (sameValueZero k key) eqn:E.
  - intros _. apply sameValueZero_true in E. subst k.
    exists [], rest. auto.
  - intros H. destruct (IH H) as (before & after & Hm & Hb & Hd).
    exists ((k, v) :: before), after. simpl. rewrite E.
    repeat split; congruence.
Qed.

(** X6.  [remove] of a key holding a truthy value takes exactly that
    entry out and keeps the other entries in their order; every other
    key K' keeps its [has] and [get], for any [remove] call. *)
Theorem remove_keeps_others (c : Collection.t) (K : value) :
  (Collection.has K c = true -> truthy (Collection.get K c) = true ->
   exists before after,
     Collection.entries c = before ++ (K, Collection.get K c) :: after /\
     Collection.entries (Collection.after (Collection.remove K c))
     = before ++ after) /\
  (forall K', K' <> K ->
     Collection.has K' (Collection.after (Collection.remove K c))
     = Collection.has K' c /\
     Collection.get K' (Collection.after (Collection.remove K c))
     = Collection.get K' c).
Proof.
  split.
  - intros Hhas Ht. rewrite remove_deletes by assumption.
    destruct (delete_split K (Collection.entries c) Hhas)
      as (before & after & Hm & _ & Hd).
    exists before, after. split; [exact Hm | exact Hd].
  - intros K' Hne.
    destruct (remove_cases c K) as [-> | ->]; [auto|].
    unfold Collection.has, Collection.get. simpl.
    now rewrite has_delete_other, get_delete_other.
Qed.

Lemma remove_keeps_others_witness :
  Collection.values
    (Collection.after (Collection.remove (VStr "a") two_store))
  = [VNum 2] /\
  VStr "b" <> VStr "a" /\
  Collection.get (VStr "b")
    (Collection.after (Collection.remove (VStr "a") two_store))
  = VNum 2.
Proof.
  assert (Hne : VStr "b" <> VStr "a") by discriminate.
  destruct (remove_keeps_others two_store (VStr "a")) as [H1 H2].
  destruct (H1 eq_refl eq_refl) as (before & after & _ & _).
  exact (conj eq_refl (conj Hne (proj2 (H2 (VStr "b") Hne)))).
Defined.

(** X7.  After [remove(K)], a second [remove(K)] returns [null] and
    changes nothing, and [get(K)] is falsy, whatever the first call
    did. *)
Theorem remove_twice (c : Collection.t) (K : value) :
  JsMap.wf (Collection.entries c) ->
  let c' := Collection.after (Collection.remove K c) in
  Collection.remove K c' = (Normal VNull, c') /\
  truthy (Collection.get K c') = false.
Proof.
  intros Hwf c'.
  assert (Hf : truthy (Collection.get K c') = false).
  { subst c'. destruct (truthy (Collection.get K c)) eqn:G.
    - rewrite remove_deletes by assumption.
      unfold Collection.after, Collection.get. simpl.
      rewrite get_absent; [reflexivity|]. now apply has_delete.
    - now rewrite remove_nothing. }
  split; [|exact Hf]. now apply remove_nothing.
Qed.

Lemma remove_twice_witness :
  JsMap.wf (Collection.entries two_store) /\
  Collection.result
    (Collection.remove (VStr "a")
       (Collection.after (Collection.remove (VStr "a") two_store)))
  = Normal VNull.
Proof.
  pose proof (remove_twice two_store (VStr "a") two_store_wf) as H.
  exact (conj two_store_wf (f_equal fst (proj1 H))).
Defined.

(** X8.  Adding an absent key with a truthy value the collection
    accepts and then removing it is a round trip: [remove] returns the
    value and the collection is exactly what it was before the [add]. *)
Theorem add_then_remove (c : Collection.t) (K V replace : value) :
  Collection.has K c = false ->
  truthy V = true ->
  accepts c V = true ->
  Collection.remove K (Collection.after (Collection.add K V replace c))
  = (Normal V, c).
Proof.
  intros Habs Ht Hacc.
  rewrite (add_stores_true _ _ _ _ (add_stores_fresh c K V replace Habs Hacc)).
  unfold Collection.after. simpl.
  rewrite remove_deletes.
  - unfold Collection.get. simpl. rewrite get_set_same.
    unfold Collection.has in Habs. rewrite (delete_set_absent _ _ _ Habs).
    now destruct c.
  - unfold Collection.get. simpl. now rewrite get_set_same.
Qed.

Lemma add_then_remove_witness :
  Collection.has (VStr "b") wrapper_store = false /\
  truthy (wrap 2) = true /\
  accepts wrapper_store (wrap 2) = true /\
  Collection.remove (VStr "b")
    (Collection.after
       (Collection.add (VStr "b") (wrap 2) VUndefined wrapper_store))
  = (Normal (wrap 2), wrapper_store).
Proof.
  exact (conj eq_refl (conj eq_refl (conj eq_refl
          (add_then_remove wrapper_store (VStr "b") (wrap 2) VUndefined
             eq_refl eq_refl eq_refl)))).
Defined.

(** X9.  Removing a key that holds a truthy value and adding it again
    moves it to the end of the iteration order: the entries are the
    others in their old order, then the key with its new value. *)
Theorem remove_then_add (c : Collection.t) (K V replace : value) :
  JsMap.wf (Collection.entries c) ->
  truthy (Collection.get K c) = true ->
  accepts c V = true ->
  Collection.entries
    (Collection.after
       (Collection.add K V replace
          (Collection.after (Collection.remove K c))))
  = JsMap.delete K (Collection.entries c) ++ [(K, V)].
Proof.
  intros Hwf Ht Hacc. rewrite remove_deletes by assumption.
  unfold Collection.after at 2. simpl.
  set (c' := Collection.mk (Collection.baseObject c)
               (JsMap.delete K (Collection.entries c))).
  assert (Habs : Collection.has K c' = false)
    by (unfold Collection.has, c'; simpl; now apply has_delete).
  rewrite (add_stores_true _ _ _ _
             (add_stores_fresh c' K V replace Habs Hacc)).
  unfold Collection.after. simpl. now apply set_absent.
Qed.

Lemma remove_then_add_witness :
  JsMap.wf (Collection.entries two_store) /\
  truthy (Collection.get (VStr "a") two_store) = true /\
  accepts two_store (VNum 3) = true /\
  Collection.entries
    (Collection.after
       (Collection.add (VStr "a") (VNum 3) VUndefined
          (Collection.after (Collection.remove (VStr "a") two_store))))
  = [(VStr "b", VNum 2); (VStr "a", VNum 3)].
Proof.
  exact (conj two_store_wf (conj eq_refl (conj eq_refl
          (remove_then_add two_store (VStr "a") (VNum 3) VUndefined
             two_store_wf eq_refl eq_refl)))).
Defined.

(** X10.  [add] and [update] never take a key away and grow the size
    by at most one; [remove] never brings a key in and shrinks the size
    by at most one. *)
Theorem size_and_keys_monotone (c : Collection.t) (K V replace : value) :
  let ca := Collection.after (Collection.add K V replace c) in
  let cr := Collection.after (Collection.remove K c) in
  (forall K', Collection.has K' c = true -> Collection.has K' ca = true) /\
  Collection.size c <= Collection.size ca <= S (Collection.size c) /\
  (forall K', Collection.has K' cr = true -> Collection.has K' c = true) /\
  Collection.size cr <= Collection.size c <= S (Collection.size cr).
Proof.
  intros ca cr. subst ca cr. repeat split.
  - intros K' H. destruct (add_cases c K V replace) as [-> | [-> _]]; auto.
    unfold Collection.has. simpl. destruct (value_eq_dec K' K) as [->|Hne].
    + apply has_set_same.
    + now rewrite has_set_other.
  - destruct (add_cases c K V replace) as [-> | [-> _]]; auto.
    unfold Collection.size. simpl. rewrite size_set.
    destruct (JsMap.has K (Collection.entries c)); auto.
  - destruct (add_cases c K V replace) as [-> | [-> _]]; auto.
    unfold Collection.size. simpl. rewrite size_set.
    destruct (JsMap.has K (Collection.entries c)); auto.
  - intros K' H. destruct (remove_cases c K) as [E | E]; rewrite E in H; auto.
    unfold Collection.has in *. simpl in H.
    apply has_keys in H. apply has_keys.
    eapply keys_delete_incl; eauto.
  - destruct (remove_cases c K) as [-> | ->]; auto.
    unfold Collection.size. simpl.
    destruct (JsMap.has K (Collection.entries c)) eqn:Hh.
    + rewrite <- (size_delete _ _ Hh). auto.
    + now rewrite delete_absent.
  - destruct (remove_cases c K) as [-> | ->]; auto.
    unfold Collection.size. simpl.
    destruct (JsMap.has K (Collection.entries c)) eqn:Hh.
    + now rewrite <- (size_delete _ _ Hh).
    + rewrite delete_absent; auto.
Qed.

Lemma size_and_keys_monotone_witness :
  Collection.has (VStr "a") two_store = true /\
  Collection.has (VStr "a")
    (Collection.after (Collection.add (VStr "c") (VNum 3) VUndefined
                         two_store)) = true.
Proof.
  exact (conj eq_refl
          (proj1 (size_and_keys_monotone two_store (VStr "c") (VNum 3)
                    VUndefined) (VStr "a") eq_refl)).
Defined.

(* ------------------------------------------------------------------ *)
(** ** The query helpers *)

Lemma find_loop_first (func : value -> value) (items : list value) :
  (exists before v after,
     items = before ++ v :: after /\
     Forall (fun x => truthy (func x) = false) before /\
     truthy (func v) = true /\
     Collection.find_loop func items = v) \/
  (Forall (fun x => truthy (func x) = false) items /\
   Collection.find_loop func items = VUndefined).
Proof.
  induction items as [|item rest IH]; simpl.
  - right. auto.
  - destruct (truthy (func item)) eqn:E.
    + left. exists [], item, rest. auto.
    + destruct IH as [(before & v & after & Hi & Hb & Hv & Hf) | [Hall Hf]].
      * left. exists (item :: before), v, after. subst rest. auto.
      * right. auto.
Qed.

(** X11.  [find(f)] returns the first value, in iteration order, whose
    test result is truthy: every value before it fails the test.  When
    no value passes, it returns [undefined]. *)
Theorem find_first_match (c : Collection.t) (f : value -> value) :
  (exists before v after,
     Collection.values c = before ++ v :: after /\
     Forall (fun x => truthy (f x) = false) before /\
     truthy (f v) = true /\
     Collection.result (Collection.find f c) = Normal v) \/
  (Forall (fun x => truthy (f x) = false) (Collection.values c) /\
   Collection.result (Collection.find f c) = Normal VUndefined).
Proof.
  unfold Collection.find, Collection.bind, Collection.this_values,
    Collection.ret, Collection.result. simpl.
  fold (Collection.values c).
  destruct (find_loop_first f (Collection.values c))
    as [(before & v & after & Hi & Hb & Hv & Hf) | [Hall Hf]].
  - left. exists before, v, after. rewrite Hf. auto.
  - right. rewrite Hf. auto.
Qed.

(** X12.  [filter(f)] returns the values whose test result is truthy,
    in iteration order and with their multiplicity: a value is in the
    result exactly when it is stored and passes, and the result is never
    longer than size. *)
Theorem filter_spec (c : Collection.t) (f : value -> value) :
  exists arr,
    Collection.result (Collection.filter f c) = Normal arr /\
    arr = List.filter (fun v => truthy (f v)) (Collection.values c) /\
    (forall v, In v arr <->
               In v (Collection.values c) /\ truthy (f v) = true) /\
    List.length arr <= Collection.size c.
Proof.
  rewrite filter_values. eexists. split; [reflexivity|].
  split; [reflexivity|]. split.
  - intros v. apply (filter_In (fun x => truthy (f x))).
  - rewrite <- values_length. apply filter_length_le.
Qed.

(** X13.  [map(f)] returns an array as long as size whose i-th element
    is f applied to the i-th value in iteration order. *)
Theorem map_spec (c : Collection.t) (f : value -> value) :
  exists arr,
    Collection.result (Collection.map f c) = Normal arr /\
    List.length arr = Collection.size c /\
    forall i, nth_error arr i
              = option_map f (nth_error (Collection.values c) i).
Proof.
  rewrite map_values. eexists. split; [reflexivity|]. split.
  - rewrite length_map. apply values_length.
  - intros i. apply nth_error_map.
Qed.

Lemma every_loop_negate (func : value -> value) (items : list value) :
  Collection.every_loop func items
  = negb (Collection.some_loop (negate func) items).
Proof.
  induction items as [|item rest IH]; simpl; auto.
  unfold negate at 1. simpl.
  destruct (truthy (func item)); simpl; auto.
Qed.

Lemma some_loop_negate (func : value -> value) (items : list value) :
  Collection.some_loop func items
  = negb (Collection.every_loop (negate func) items).
Proof.
  induction items as [|item rest IH]; simpl; auto.
  unfold negate at 1. simpl.
  destruct (truthy (func item)); simpl; auto.
Qed.

(** X14.  [every] and [some] are dual: [every(f)] is the negation of
    [some(v => !f(v))], and [some(f)] the negation of
    [every(v => !f(v))]. *)
Theorem every_some_dual (c : Collection.t) (f : value -> value) :
  (exists b,
     Collection.result (Collection.some (negate f) c) = Normal b /\
     Collection.result (Collection.every f c) = Normal (negb b)) /\
  (exists b,
     Collection.result (Collection.every (negate f) c) = Normal b /\
     Collection.result (Collection.some f c) = Normal (negb b)).
Proof.
  unfold Collection.some, Collection.every, Collection.bind,
    Collection.this_values, Collection.ret, Collection.result. simpl.
  split; eexists; (split; [reflexivity|]).
  - now rewrite every_loop_negate.
  - now rewrite some_loop_negate.
Qed.

Lemma find_loop_filter (func : value -> value) (items : list value) :
  Collection.find_loop func items
  = hd VUndefined (List.filter (fun v => truthy (func v)) items).
Proof.
  induction items as [|item rest IH]; simpl; auto.
  destruct (truthy (func item)); simpl; auto.
Qed.

Lemma some_loop_filter (func : value -> value) (items : list value) :
  Collection.some_loop func items
  = negb (Nat.eqb (List.length
                     (List.filter (fun v => truthy (func v)) items)) 0).
Proof.
  induction items as [|item rest IH]; simpl; auto.
  destruct (truthy (func item)); simpl; auto.
Qed.

(** X15.  The three tests agree: [find(f)] returns the first element of
    what [filter(f)] returns ([undefined] when that is empty), and
    [some(f)] is true exactly when [filter(f)] is not empty. *)
Theorem find_some_filter_agree (c : Collection.t) (f : value -> value) :
  exists arr,
    Collection.result (Collection.filter f c) = Normal arr /\
    Collection.result (Collection.find f c) = Normal (hd VUndefined arr) /\
    Collection.result (Collection.some f c)
    = Normal (negb (Nat.eqb (List.length arr) 0)).
Proof.
  rewrite filter_values. eexists. split; [reflexivity|].
  unfold Collection.find, Collection.some, Collection.bind,
    Collection.this_values, Collection.ret, Collection.result. simpl.
  fold (Collection.values c).
  now rewrite find_loop_filter, some_loop_filter.
Qed.

(** X16.  A newly constructed collection is empty whatever the base
    class: size 0, no key present, [get] and [find] give [undefined],
    [filter] and [map] give empty arrays, and [remove] returns [null]
    leaving it empty. *)
Theorem constructor_empty (base : option Class) (K : value)
  (f : value -> value) :
  let c := Collection.constructor base in
  Collection.baseObject c = base /\
  Collection.size c = 0 /\
  Collection.has K c = false /\
  Collection.get K c = VUndefined /\
  Collection.find f c = (Normal VUndefined, c) /\
  Collection.filter f c = (Normal [], c) /\
  Collection.map f c = (Normal [], c) /\
  Collection.remove K c = (Normal VNull, c).
Proof.
  destruct base; repeat split.
Qed.

(* ------------------------------------------------------------------ *)
(** ** Collections with a base class *)

Lemma typed_present_truthy (c : Collection.t) (cls : Class) (K : value) :
  Collection.reachable c ->
  Collection.baseObject c = Some cls ->
  Collection.has K c = true ->
  truthy (Collection.get K c) = true.
Proof.
  intros Hr Hb Hhas.
  apply (instanceof_truthy _ cls).
  apply (reachable_conforms_all c Hr cls Hb).
  now apply get_in_values.
Qed.

(** X17.  In a collection with a base class, built by [new], [add],
    [update] and [remove], presence and truthiness coincide: a key is
    present exactly when [get] gives a truthy value.  So on a present
    key [add] without replace always returns the existing value
    unchanged, and [remove] always deletes it and returns it. *)
Theorem typed_collection_present (c : Collection.t) (cls : Class)
  (K : value) :
  Collection.reachable c ->
  Collection.baseObject c = Some cls ->
  Collection.has K c = truthy (Collection.get K c) /\
  (Collection.has K c = true ->
     (forall V, Collection.add K V (VBool false) c
                = (Normal (Collection.get K c), c)) /\
     Collection.result (Collection.remove K c)
     = Normal (Collection.get K c) /\
     Collection.has K (Collection.after (Collection.remove K c)) = false /\
     S (Collection.size (Collection.after (Collection.remove K c)))
     = Collection.size c).
Proof.
  intros Hr Hb. split.
  - destruct (Collection.has K c) eqn:Hhas.
    + symmetry. now apply (typed_present_truthy c cls).
    + unfold Collection.get. unfold Collection.has in Hhas.
      now rewrite (get_absent _ _ Hhas).
  - intros Hhas.
    pose proof (typed_present_truthy c cls K Hr Hb Hhas) as Ht.
    split; [|rewrite remove_deletes by assumption; simpl; repeat split].
    + intros V. now apply add_existing.
    + apply has_delete. now apply reachable_wf.
    + now apply size_delete.
Qed.

Lemma typed_collection_present_witness :
  Collection.reachable wrapper_store /\
  Collection.baseObject wrapper_store = Some Wrapper /\
  Collection.has (VStr "a") wrapper_store = true /\
  Collection.result (Collection.remove (VStr "a") wrapper_store)
  = Normal (wrap 1).
Proof.
  assert (Hr : Collection.reachable wrapper_store).
  { unfold wrapper_store. apply Collection.reach_add.
    apply Collection.reach_new. }
  pose proof (typed_collection_present wrapper_store Wrapper (VStr "a")
                Hr eq_refl) as H.
  exact (conj Hr (conj eq_refl (conj eq_refl
          (proj1 (proj2 (proj2 H eq_refl)))))).
Defined.

(** X18.  Every collection built by [new], [add], [update] and [remove]
    holds each key once, so size counts the distinct keys. *)
Theorem reachable_keys_unique (c : Collection.t) :
  Collection.reachable c ->
  NoDup (JsMap.keys (Collection.entries c)) /\
  Collection.size c = List.length (nodup value_eq_dec
                                     (JsMap.keys (Collection.entries c))).
Proof.
  intros Hr. pose proof (reachable_wf c Hr) as Hwf. split; [exact Hwf|].
  rewrite (nodup_fixed_point value_eq_dec Hwf).
  unfold Collection.size, JsMap.size, JsMap.keys. now rewrite length_map.
Qed.

Lemma reachable_keys_unique_witness :
  Collection.reachable two_store /\
  NoDup (JsMap.keys (Collection.entries two_store)).
Proof.
  assert (Hr : Collection.reachable two_store).
  { unfold two_store. do 2 apply Collection.reach_add.
    apply Collection.reach_new. }
  exact (conj Hr (proj1 (reachable_keys_unique two_store Hr))).
Defined.

(* ------------------------------------------------------------------ *)
(** ** Falsy stored values *)

(** X21.  A key whose stored value is falsy is treated as if it were
    not there: [add], even without replace, overwrites it in place with
    any value the collection accepts and returns that value (keys and
    size unchanged), and [remove] returns [null] and leaves the entry
    in the store. *)
Theorem falsy_entry_as_absent (c : Collection.t) (K V replace : value) :
  Collection.has K c = true ->
  truthy (Collection.get K c) = false ->
  accepts c V = true ->
  let r := Collection.add K V replace c in
  Collection.result r = Normal V /\
  Collection.get K (Collection.after r) = V /\
  JsMap.keys (Collection.entries (Collection.after r))
  = JsMap.keys (Collection.entries c) /\
  Collection.size (Collection.after r) = Collection.size c /\
  Collection.remove K c = (Normal VNull, c).
Proof.
  intros Hhas Hf Hacc r. subst r.
  assert (Hs : add_stores c K V replace = true).
  { unfold add_stores. now rewrite Hf, Hacc. }
  rewrite (add_stores_true _ _ _ _ Hs).
  unfold Collection.result, Collection.after, Collection.size,
    Collection.get. simpl.
  unfold Collection.has in Hhas.
  rewrite get_set_same, size_set, Hhas, (keys_set_present _ _ _ Hhas).
  repeat split. now apply remove_nothing.
Qed.

Lemma falsy_entry_as_absent_witness :
  Collection.has (VStr "a") zero_store = true /\
  truthy (Collection.get (VStr "a") zero_store) = false /\
  accepts zero_store (VNum 5) = true /\
  Collection.get (VStr "a")
    (Collection.after
       (Collection.add (VStr "a") (VNum 5) VUndefined zero_store))
  = VNum 5 /\
  Collection.remove (VStr "a") zero_store = (Normal VNull, zero_store).
Proof.
  pose proof (falsy_entry_as_absent zero_store (VStr "a") (VNum 5) VUndefined
                eq_refl eq_refl eq_refl) as H.
  exact (conj eq_refl (conj eq_refl (conj eq_refl
          (conj (proj1 (proj2 H)) (proj2 (proj2 (proj2 (proj2 H)))))))).
Defined.

(* ------------------------------------------------------------------ *)
(** ** The logger's init messages *)

Lemma prefix_append (s t : string) : String.prefix s (s ++ t) = true.
Proof.
  induction s as [|a s IH]; simpl.
  - now destruct t.
  - destruct (Ascii.ascii_dec a a); [exact IH | congruence].
Qed.

(** X19.  [initCommand] and [initSubCmd] read [subCommands.size] only
    when [hasSubcmd] is truthy.  With [hasSubcmd] truthy and
    [subCommands] missing both throw and log nothing; in every other
    case each logs exactly one entry after the earlier output, with the
    same message, which starts with the label, [initCommand] through
    [commandS] and [initSubCmd] through [subcmdS].  With [hasSubcmd]
    falsy the message is the label followed by " Initialised!". *)
Theorem init_command_logs (cmd : SignaleLogger.Command)
  (out : list SignaleLogger.entry) :
  (truthy (SignaleLogger.hasSubcmd cmd) = true ->
   SignaleLogger.subCommands cmd = None ->
   SignaleLogger.initCommand cmd out = (Throw TypeError, out) /\
   SignaleLogger.initSubCmd cmd out = (Throw TypeError, out)) /\
  (truthy (SignaleLogger.hasSubcmd cmd) = false \/
   SignaleLogger.subCommands cmd <> None ->
   exists mess,
     SignaleLogger.initCommand cmd out
     = (Normal tt, out ++ [SignaleLogger.mkEntry SignaleLogger.commandS mess])
     /\
     SignaleLogger.initSubCmd cmd out
     = (Normal tt, out ++ [SignaleLogger.mkEntry SignaleLogger.subcmdS mess])
     /\
     String.prefix (SignaleLogger.label cmd) mess = true /\
     (truthy (SignaleLogger.hasSubcmd cmd) = false ->
      mess = (SignaleLogger.label cmd ++ " Initialised!")%string)).
Proof.
  unfold SignaleLogger.initCommand, SignaleLogger.initSubCmd,
    SignaleLogger.initCommand_mess, SignaleLogger.initSubCmd_mess,
    SignaleLogger.bind, SignaleLogger.lift, SignaleLogger.ret,
    SignaleLogger.call.
  split.
  - intros Ht Hn. rewrite Ht, Hn. simpl. auto.
  - intros H.
    destruct (truthy (SignaleLogger.hasSubcmd cmd)) eqn:Ht.
    + destruct H as [H|H]; [discriminate|].
      destruct (SignaleLogger.subCommands cmd) as [sub|]; [|congruence].
      simpl. eexists. split; [reflexivity|]. split; [reflexivity|].
      split; [apply prefix_append | discriminate].
    + eexists. split; [reflexivity|]. split; [reflexivity|].
      split; [apply prefix_append | reflexivity].
Qed.

Lemma init_command_logs_witness :
  SignaleLogger.initCommand
    (SignaleLogger.mkCommand "ping" (VBool true) None) []
  = (Throw TypeError, []) /\
  exists mess,
    SignaleLogger.initSubCmd
      (SignaleLogger.mkCommand "ping" (VBool true) (Some two_store)) []
    = (Normal tt, [SignaleLogger.mkEntry SignaleLogger.subcmdS mess]) /\
    mess = "ping Initialised! Subcommands loaded -2-"%string.
Proof.
  pose proof (proj1 (init_command_logs
                (SignaleLogger.mkCommand "ping" (VBool true) None) [])
                eq_refl eq_refl) as H1.
  assert (Hsome : SignaleLogger.subCommands
                    (SignaleLogger.mkCommand "ping" (VBool true)
                       (Some two_store)) <> None) by discriminate.
  destruct (proj2 (init_command_logs
              (SignaleLogger.mkCommand "ping" (VBool true) (Some two_store))
              [])
              (or_intror Hsome))
    as (mess & _ & Hs & _).
  split; [exact (proj1 H1)|].
  exists mess. split; [exact Hs|].
  cbv in Hs. injection Hs as Hs. symmetry. exact Hs.
Defined.

Lemma to_uint_nonnil (n : nat) : Nat.to_uint n <> Decimal.Nil.
Proof.
  intros H.
  assert (E : n = 0).
  { rewrite <- (DecimalNat.Unsigned.of_to n), H. reflexivity. }
  subst n. discriminate H.
Qed.

Lemma number_to_string_inj (n n' : nat) :
  SignaleLogger.number_to_string n = SignaleLogger.number_to_string n' ->
  n = n'.
Proof.
  unfold SignaleLogger.number_to_string. intros H.
  apply DecimalNat.Unsigned.to_uint_inj.
  pose proof (NilZero.usu (Nat.to_uint n) (to_uint_nonnil n)) as H1.
  pose proof (NilZero.usu (Nat.to_uint n') (to_uint_nonnil n')) as H2.
  rewrite H in H1. congruence.
Qed.

Lemma append_inv_head (s t t' : string) :
  (s ++ t)%string = (s ++ t')%string -> t = t'.
Proof.
  induction s as [|a s IH]; simpl; [auto|].
  intros H. injection H as H. auto.
Qed.

Lemma append_char_inv_tail (a : Ascii.ascii) (s s' : string) :
  (s ++ String a EmptyString)%string = (s' ++ String a EmptyString)%string ->
  s = s'.
Proof.
  revert s'. induction s as [|b s IH]; intros [|b' s']; simpl; intros H.
  - reflexivity.
  - injection H as _ H. destruct s'; discriminate H.
  - injection H as _ H. destruct s; discriminate H.
  - injection H as Hb H. subst b'. f_equal. auto.
Qed.

Lemma module_message_inj (l : string) (n n' : nat) :
  ("[" ++ l ++ "] Initialised! Commands loaded -"
   ++ SignaleLogger.number_to_string n ++ "-")%string
  = ("[" ++ l ++ "] Initialised! Commands loaded -"
     ++ SignaleLogger.number_to_string n' ++ "-")%string ->
  n = n'.
Proof.
  intros H. cbn [append] in H. injection H as H.
  apply append_inv_head in H. cbn [append] in H.
  repeat match type of H with
         | String _ _ = String _ _ => injection H as H
         end.
  apply append_char_inv_tail in H.
  now apply number_to_string_inj.
Qed.

(** X20.  [initModule] throws and logs nothing when [commands] is
    missing; otherwise it logs exactly one entry through [moduleS]
    after the earlier output.  The entry reports the size faithfully:
    two modules with the same label log the same thing exactly when
    their command collections have the same size. *)
Theorem init_module_logs (m m' : SignaleLogger.AxonModule)
  (out : list SignaleLogger.entry) :
  (SignaleLogger.commands m = None ->
   SignaleLogger.initModule m out = (Throw TypeError, out)) /\
  (forall c c',
     SignaleLogger.commands m = Some c ->
     SignaleLogger.commands m' = Some c' ->
     SignaleLogger.module_label m = SignaleLogger.module_label m' ->
     (exists mess,
        SignaleLogger.initModule m out
        = (Normal tt,
           out ++ [SignaleLogger.mkEntry SignaleLogger.moduleS mess])) /\
     (SignaleLogger.initModule m out = SignaleLogger.initModule m' out <->
      Collection.size c = Collection.size c')).
Proof.
  unfold SignaleLogger.initModule, SignaleLogger.bind, SignaleLogger.lift,
    SignaleLogger.call.
  split.
  - intros ->. reflexivity.
  - intros c c' -> -> Hl. unfold SignaleLogger.get_size. split.
    + eexists. reflexivity.
    + rewrite Hl. split.
      * intros H.
        apply (module_message_inj (SignaleLogger.module_label m')).
        set (s1 := (_ ++ _)%string) in H at 1.
        set (s2 := (_ ++ _)%string) in H.
        change (s1 = s2).
        injection H as H. apply app_inv_head in H. congruence.
      * intros ->. reflexivity.
Qed.

Lemma init_module_logs_witness :
  SignaleLogger.initModule (SignaleLogger.mkModule "core" None) []
  = (Throw TypeError, []) /\
  (SignaleLogger.initModule
     (SignaleLogger.mkModule "core" (Some two_store)) []
   = SignaleLogger.initModule
       (SignaleLogger.mkModule "core" (Some wrapper_store)) [] ->
   Collection.size two_store = Collection.size wrapper_store).
Proof.
  split.
  - exact (proj1 (init_module_logs
                    (SignaleLogger.mkModule "core" None)
                    (SignaleLogger.mkModule "core" None) []) eq_refl).
  - exact (proj1 (proj2 (proj2 (init_module_logs
                    (SignaleLogger.mkModule "core" (Some two_store))
                    (SignaleLogger.mkModule "core" (Some wrapper_store)) [])
                    two_store wrapper_store eq_refl eq_refl eq_refl))).
Defined.
